(** * trezor-connect: device capabilities, firmware revision and Cardano witness paths

    A shallow embedding of

    - [parseCapabilities], [getUnavailableCapabilities] and [parseRevision]
      (the firmware-info utilities), and
    - [gatherWitnessPaths] (src/js/core/methods/helpers/cardanoWitnesses.js),

    together with the properties that the specification states about them.

    JavaScript values are modelled by the types the Flow annotations give
    them: an optional value ([undefined]/[null]) is an [option], an array is
    a [list], a number that the code only uses as an integer is a [Z], a
    string is a [string], and a plain object used as a dictionary is a
    [gmap] with string keys. *)

From Stdlib Require Import ZArith Ascii String List.
From stdpp Require Import base decidable option list strings gmap pretty.

Local Open Scope string_scope.
Local Open Scope Z_scope.
Local Open Scope list_scope.

(** ** JavaScript helpers *)

(** [a[i]] for an array [a] and an integral number [i]: [undefined] when the
    index is negative or past the end. *)
Definition array_get {A} (a : list A) (i : Z) : option A :=
  if i <? 0 then None else a !! Z.to_nat i.

(** Truthiness of a string: every string but the empty one. *)
Definition truthy_string (s : string) : bool :=
  match s with
  | EmptyString => false
  | String _ _ => true
  end.

(** Truthiness of a value that is a string or [undefined]. *)
Definition truthy (v : option string) : bool :=
  match v with
  | Some s => truthy_string s
  | None => false
  end.

(** [Array.prototype.flatMap]. *)
Definition flatMap {A B} (f : A → list B) (a : list A) : list B :=
  concat (map f a).

(** ** The device's features *)

Definition Capability := string.

(** The [Features] message, restricted to the fields that the code reads.
    The element type of [capabilities] is a parameter: the field is declared
    as an array of capability names, but the device sends numeric codes
    ("declared as string[] but in fact it's a number[]"), which
    [parseCapabilities] turns into the names that
    [getUnavailableCapabilities] looks for. *)
Record Features (C : Type) := mkFeatures {
  firmware_present : option bool;
  major_version : Z;
  minor_version : Z;
  patch_version : Z;
  capabilities : option (list C);
  revision : option string
}.
Arguments mkFeatures {C}.
Arguments firmware_present {C}.
Arguments major_version {C}.
Arguments minor_version {C}.
Arguments patch_version {C}.
Arguments capabilities {C}.
Arguments revision {C}.

(** ** [parseCapabilities] *)

Definition CAPABILITIES : list Capability :=
  [ "Capability_Bitcoin";
    "Capability_Bitcoin_like";
    "Capability_Binance";
    "Capability_Cardano";
    "Capability_Crypto";
    "Capability_EOS";
    "Capability_Ethereum";
    "Capability_Lisk";
    "Capability_Monero";
    "Capability_NEM";
    "Capability_Ripple";
    "Capability_Stellar";
    "Capability_Tezos";
    "Capability_U2F";
    "Capability_Shamir";
    "Capability_ShamirGroups";
    "Capability_PassphraseEntry" ].

Definition DEFAULT_CAPABILITIES_T1 : list Z := [1; 2; 5; 7; 10; 12; 14].
Definition DEFAULT_CAPABILITIES_TT : list Z :=
  [1; 2; 3; 4; 5; 6; 7; 9; 10; 11; 12; 13; 14].

(** [c => (CAPABILITIES[c - 1] ? [CAPABILITIES[c - 1]] : [])] *)
Definition capability_filter (c : Z) : list Capability :=
  if truthy (array_get CAPABILITIES (c - 1))
  then match array_get CAPABILITIES (c - 1) with
       | Some name => [name]
       | None => []
       end
  else [].

(** [!features.capabilities || !features.capabilities.length] *)
Definition no_reported_capabilities (caps : option (list Z)) : bool :=
  match caps with
  | None => true
  | Some cs => Nat.eqb (length cs) 0
  end.

Definition parseCapabilities (features : option (Features Z)) : list Capability :=
  match features with
  | None => []
  | Some features =>
    if bool_decide (firmware_present features = Some false) then []
    else if no_reported_capabilities (capabilities features) then
      if major_version features =? 1
      then flatMap capability_filter DEFAULT_CAPABILITIES_T1
      else flatMap capability_filter DEFAULT_CAPABILITIES_TT
    else
      match capabilities features with
      | Some cs => flatMap capability_filter cs
      | None => []
      end
  end.

(** *** [parseCapabilities] on a field [capabilities] of any shape *)

(** Nothing checks the Flow types at run time.  A value that the field
    [capabilities] may hold: [undefined], [null], a boolean, an integral
    number, a string, or an array of integral numbers.  (Objects other than
    arrays, and arrays with elements that are not numbers, are left out.) *)
Inductive JsValue :=
  | JsUndefined
  | JsNull
  | JsBoolean (b : bool)
  | JsNumber (n : Z)
  | JsString (s : string)
  | JsArray (items : list Z).

(** The outcome of a call: a result, or an exception. *)
Inductive Completion (A : Type) :=
  | Returned (result : A)
  | Thrown (error : string).
Arguments Returned {A}.
Arguments Thrown {A}.

(** Truthiness: what [!v] negates. *)
Definition js_truthy (v : JsValue) : bool :=
  match v with
  | JsUndefined | JsNull => false
  | JsBoolean b => b
  | JsNumber n => negb (n =? 0)
  | JsString s => truthy_string s
  | JsArray _ => true
  end.

(** [v.length], for a value other than [undefined] and [null] (on which
    the code does not read the property: [!v ||] comes first): the length
    of a string or of an array, [undefined] for a boolean or a number. *)
Definition js_length (v : JsValue) : JsValue :=
  match v with
  | JsString s => JsNumber (Z.of_nat (String.length s))
  | JsArray items => JsNumber (Z.of_nat (length items))
  | _ => JsUndefined
  end.

(** [v.flatMap(filter)]: only an array has the method [flatMap]; on any
    other value the property is [undefined], and calling it throws a
    [TypeError]. *)
Definition js_flatMap (filter : Z → list Capability) (v : JsValue)
  : Completion (list Capability) :=
  match v with
  | JsArray items => Returned (flatMap filter items)
  | _ => Thrown "TypeError"
  end.

(** The features as they arrive: the fields that [parseCapabilities] reads,
    with [capabilities] of any shape. *)
Record RawFeatures := mkRawFeatures {
  raw_firmware_present : option bool;
  raw_major_version : Z;
  raw_capabilities : JsValue
}.

(** [parseCapabilities], line by line, on such features. *)
Definition parseCapabilities_any (features : option RawFeatures)
  : Completion (list Capability) :=
  match features with
  | None => Returned []
  | Some features =>
    if bool_decide (raw_firmware_present features = Some false) then Returned []
    else if negb (js_truthy (raw_capabilities features))
            || negb (js_truthy (js_length (raw_capabilities features))) then
      Returned (if raw_major_version features =? 1
                then flatMap capability_filter DEFAULT_CAPABILITIES_T1
                else flatMap capability_filter DEFAULT_CAPABILITIES_TT)
    else js_flatMap capability_filter (raw_capabilities features)
  end.

(** The features of the declared type, as they arrive: an absent
    [capabilities] is [undefined], a present one is an array. *)
Definition to_raw (features : Features Z) : RawFeatures :=
  mkRawFeatures (firmware_present features) (major_version features)
                (match capabilities features with
                 | Some codes => JsArray codes
                 | None => JsUndefined
                 end).

(** ** [versionCompare] *)

(** Numeric value of a decimal digit; any other character counts as 0. *)
Definition digit_value (c : ascii) : Z :=
  let n := Z.of_N (N_of_ascii c) in
  if (48 <=? n) && (n <=? 57) then n - 48 else 0.

(** The dotted segments of a version string, read as decimal numbers;
    [cur] is the value of the segment being read. *)
Fixpoint versionSplit_from (cur : Z) (s : string) : list Z :=
  match s with
  | EmptyString => [cur]
  | String c s' =>
    if Ascii.eqb c "."
    then cur :: versionSplit_from 0 s'
    else versionSplit_from (10 * cur + digit_value c) s'
  end.

Definition versionSplit (s : string) : list Z := versionSplit_from 0 s.

(** Segment-wise comparison of the first [n] segments, a missing segment
    counting as 0. *)
Fixpoint compareSegments (n : nat) (a b : list Z) : Z :=
  match n with
  | O => 0
  | S n' =>
    let x := hd 0 a in
    let y := hd 0 b in
    if x <? y then -1
    else if y <? x then 1
    else compareSegments n' (tl a) (tl b)
  end.

(** Modelled from the spec: [versionCompare] is imported from
    ./versionUtils, which is not part of the sources at hand.  The
    specification (4.1) describes it as comparing the dotted numeric
    segments of the version string [a] with the version triple [b]
    "lexicographically by numeric value per segment, left-to-right, treating
    missing trailing segments as 0", the result being positive when [a] is
    newer than [b].  The specification does not say how a segment that is not
    a decimal numeral is read; here its non-digit characters count as the
    digit 0. *)
Definition versionCompare (a : string) (b : list Z) : Z :=
  let pa := versionSplit a in
  compareSegments (Nat.max (length pa) (length b)) pa b.

(** ** [getUnavailableCapabilities] *)

(** The reasons an [UnavailableCapabilities] object maps a key to:
    'no-capability' | 'no-support' | 'update-required' |
    'trezor-connect-outdated'. *)
Inductive Reason :=
  | NoCapability
  | NoSupport
  | UpdateRequired
  | TrezorConnectOutdated.

Definition Reason_to_string (r : Reason) : string :=
  match r with
  | NoCapability => "no-capability"
  | NoSupport => "no-support"
  | UpdateRequired => "update-required"
  | TrezorConnectOutdated => "trezor-connect-outdated"
  end.

#[global] Instance Reason_eq_dec : EqDecision Reason.
Proof. solve_decision. Defined.

(** The object [list] that the function fills in and returns: its own
    properties, as a map from property names to reasons. *)
Abbreviation UnavailableCapabilities := (gmap string Reason).

(** [list[key] = value] on an object created by [{}], for a value that is a
    string.  The assignment creates the property or overwrites it, except
    under the name "__proto__": that name is an accessor of
    [Object.prototype], whose setter ignores a value that is not an object,
    so that no property is created. *)
Definition set_property (key : string) (value : Reason)
    (object : UnavailableCapabilities) : UnavailableCapabilities :=
  if String.eqb key "__proto__" then object else <[key := value]> object.

(** A value of [CoinInfo.support]: a version string, or something that is
    not a string (the catalog uses [false] for "not supported"). *)
Inductive SupportValue :=
  | SupportVersion (v : string)
  | SupportFlag (b : bool).

#[global] Instance SupportValue_eq_dec : EqDecision SupportValue.
Proof. solve_decision. Defined.

(** [CoinInfo], restricted to the fields that the code reads. *)
Record CoinInfo := mkCoinInfo {
  shortcut : string;
  name : string;
  type : string;
  support : option (gmap string SupportValue)
}.

#[global] Instance CoinInfo_eq_dec : EqDecision CoinInfo.
Proof. solve_decision. Defined.

(** An entry of "config.supportedFirmware": [s.capabilities], [s.min] and
    [s.max]. *)
Record SupportedFirmware := mkSupportedFirmware {
  fw_capabilities : option (list string);
  fw_min : option (list string);
  fw_max : option (list string)
}.

(** [String.prototype.toLowerCase], on ASCII letters. *)
Definition lower_ascii (c : ascii) : ascii :=
  let n := N_of_ascii c in
  if ((65 <=? n) && (n <=? 90))%N then ascii_of_N (n + 32) else c.

Fixpoint toLowerCase (s : string) : string :=
  match s with
  | EmptyString => EmptyString
  | String c s' => String (lower_ascii c) (toLowerCase s')
  end.

(** [Array.prototype.includes] on values compared by content.  For strings
    this is what JavaScript does; for the objects of the catalog, which
    JavaScript compares by identity, see [not_in_unavailable]. *)
Definition includes {A} `{EqDecision A} (x : A) (a : list A) : bool :=
  bool_decide (x ∈ a).

(** [info.support[key]] when it is a string. *)
Definition support_version (key : string) (info : CoinInfo) : option string :=
  match support info with
  | None => None
  | Some ranges =>
    match ranges !! key with
    | Some (SupportVersion v) => Some v
    | _ => None
    end
  end.

(** [!info.support || typeof info.support[key] !== 'string'] *)
Definition no_support (key : string) (info : CoinInfo) : bool :=
  match support_version key info with
  | Some _ => false
  | None => true
  end.

(** Stage 1: [coins.filter(info => ...)], whose callback also writes to
    [list]; the result is the filtered array and the updated [list]. *)
Fixpoint filter_supported (key : string) (coins : list CoinInfo)
    (report : UnavailableCapabilities)
  : list CoinInfo * UnavailableCapabilities :=
  match coins with
  | [] => ([], report)
  | info :: rest =>
    if no_support key info then
      filter_supported key rest
                       (set_property (toLowerCase (shortcut info)) NoSupport report)
    else
      let '(supported, report') := filter_supported key rest report in
      (info :: supported, report')
  end.

(** Stage 2: the callback of [supported.filter(info => ...)]. *)
Definition lacks_capability (capabilities : list Capability) (info : CoinInfo) : bool :=
  if String.eqb (type info) "bitcoin" then
    if String.eqb (name info) "Bitcoin" || String.eqb (name info) "Testnet"
    then negb (includes "Capability_Bitcoin" capabilities)
    else negb (includes "Capability_Bitcoin_like" capabilities)
  else if String.eqb (type info) "ethereum" then
    negb (includes "Capability_Ethereum" capabilities)
  else if String.eqb (type info) "nem" then
    negb (includes "Capability_NEM" capabilities)
  else if String.eqb (shortcut info) "BNB" then
    negb (includes "Capability_Binance" capabilities)
  else if String.eqb (shortcut info) "XRP" || String.eqb (shortcut info) "tXRP" then
    negb (includes "Capability_Ripple" capabilities)
  else negb (includes ("Capability_" +:+ name info) capabilities).

(** [unavailable.forEach(info => { list[...] = 'no-capability' })] *)
Definition mark_no_capability (unavailable : list CoinInfo)
    (report : UnavailableCapabilities) : UnavailableCapabilities :=
  foldl (λ r info, set_property (toLowerCase (shortcut info)) NoCapability r)
        report unavailable.

(** Stage 3: the callback of the [forEach]; the state is [list] together
    with the array [unavailable], to which the callback pushes. *)
Definition check_version (key : string) (fw : list Z)
    (st : UnavailableCapabilities * list CoinInfo) (info : CoinInfo)
  : UnavailableCapabilities * list CoinInfo :=
  match support_version key info with
  | Some v =>
    if versionCompare v fw >? 0
    then (set_property (toLowerCase (shortcut info)) UpdateRequired (fst st),
          (snd st ++ [info])%list)
    else st
  | None => st (* not reached: [info] passed stage 1 *)
  end.

(** [supported.filter(info => !unavailable.includes(info)).forEach(...)];
    the filter is evaluated in full, on the array [unavailable] as stage 2
    left it, before the [forEach] starts pushing to it. *)
Definition check_versions (key : string) (fw : list Z)
    (supported unavailable : list CoinInfo) (report : UnavailableCapabilities)
  : UnavailableCapabilities * list CoinInfo :=
  foldl (check_version key fw) (report, unavailable)
        (filter (λ info, negb (includes info unavailable) = true) supported).

(** [s.capabilities.forEach(m => { list[m] = value })] *)
Definition mark_all (value : Reason) (names : list string)
    (report : UnavailableCapabilities) : UnavailableCapabilities :=
  foldl (λ r m, set_property m value r) report names.

(** [s.min ? s.min[fw[0] - 1] : null], and the same for [s.max]. *)
Definition bound_for (bounds : option (list string)) (fw : list Z) : option string :=
  match bounds with
  | Some a => array_get a (hd 0 fw - 1)
  | None => None
  end.

(** [min && (min === '0' || versionCompare(min, fw) > 0)] *)
Definition min_applies (min : option string) (fw : list Z) : bool :=
  match min with
  | Some v => truthy_string v && (String.eqb v "0" || (versionCompare v fw >? 0))
  | None => false
  end.

(** [max && versionCompare(max, fw) < 0] *)
Definition max_applies (max : option string) (fw : list Z) : bool :=
  match max with
  | Some v => truthy_string v && (versionCompare v fw <? 0)
  | None => false
  end.

(** The first [if] of the stage-4 callback. *)
Definition check_min (fw : list Z) (names : list string) (min : option string)
    (report : UnavailableCapabilities) : UnavailableCapabilities :=
  if min_applies min fw then
    let value := if bool_decide (min = Some "0") then NoSupport else UpdateRequired in
    mark_all value names report
  else report.

(** The second [if] of the stage-4 callback. *)
Definition check_max (fw : list Z) (names : list string) (max : option string)
    (report : UnavailableCapabilities) : UnavailableCapabilities :=
  if max_applies max fw then mark_all TrezorConnectOutdated names report
  else report.

(** Stage 4: the callback of [support.forEach(s => ...)]. *)
Definition check_firmware_range (fw : list Z)
    (report : UnavailableCapabilities) (s : SupportedFirmware)
  : UnavailableCapabilities :=
  match fw_capabilities s with
  | None => report
  | Some names =>
    let min := bound_for (fw_min s) fw in
    let max := bound_for (fw_max s) fw in
    check_max fw names max (check_min fw names min report)
  end.

(** [list] as stages 1 to 3 leave it, for a device whose capabilities are
    [capabilities]. *)
Definition coin_stages (features : Features Capability)
    (capabilities : list Capability) (coins : list CoinInfo)
  : UnavailableCapabilities :=
  let fw := [major_version features; minor_version features; patch_version features] in
  let key := "trezor" +:+ pretty (major_version features) in
  let '(supported, report1) := filter_supported key coins ∅ in
  let unavailable := filter (λ info, lacks_capability capabilities info = true) supported in
  let report2 := mark_no_capability unavailable report1 in
  fst (check_versions key fw supported unavailable report2).

Definition getUnavailableCapabilities (features : Features Capability)
    (coins : list CoinInfo) (support : list SupportedFirmware)
  : UnavailableCapabilities :=
  match capabilities features with
  | None => ∅
  | Some capabilities =>
    let fw := [major_version features; minor_version features; patch_version features] in
    foldl (check_firmware_range fw) (coin_stages features capabilities coins) support
  end.

(** ** [parseRevision] *)

(** A JavaScript string is modelled by a [string] of 8-bit characters: the
    characters below 128 are the ASCII characters, and a character from 128
    on stands for a character outside ASCII.  The regular expressions and the
    hex decoder of [parseRevision] only tell ASCII characters apart. *)

(** The class [[a-f]] under the flag [i]. *)
Definition is_af (c : ascii) : bool :=
  let n := N_of_ascii c in
  (((97 <=? n) && (n <=? 102)) || ((65 <=? n) && (n <=? 70)))%N.

(** The class [[a-f0-9]] under the flag [i]. *)
Definition is_hex_digit (c : ascii) : bool :=
  let n := N_of_ascii c in
  (((48 <=? n) && (n <=? 57)) || is_af c)%N.

(** The characters that [.] does not match. *)
Definition is_line_terminator (c : ascii) : bool :=
  let n := N_of_ascii c in ((n =? 10) || (n =? 13))%N.

(** The lookahead [(?=.*[a-f])] at the start of the string: some [[a-f]]
    occurs before the first line terminator. *)
Fixpoint lookahead_af (s : string) : bool :=
  match s with
  | EmptyString => false
  | String c s' =>
    if is_af c then true
    else if is_line_terminator c then false
    else lookahead_af s'
  end.

(** The regular expression [^([a-f0-9])*$] under the flags [gi]: every
    character is a hexadecimal digit. *)
Fixpoint all_hex_digits (s : string) : bool :=
  match s with
  | EmptyString => true
  | String c s' => is_hex_digit c && all_hex_digits s'
  end.

(** The first regular expression of [parseRevision]: the lookahead for an
    [[a-f]], then hexadecimal digits up to the end of the string. *)
Definition is_standard_notation (s : string) : bool :=
  lookahead_af s && all_hex_digits s.

(** The value of a hexadecimal digit. *)
Definition hex_value (c : ascii) : option N :=
  let n := N_of_ascii c in
  if ((48 <=? n) && (n <=? 57))%N then Some (n - 48)%N
  else if ((97 <=? n) && (n <=? 102))%N then Some (n - 87)%N
  else if ((65 <=? n) && (n <=? 70))%N then Some (n - 55)%N
  else None.

(** [Buffer.from(s, 'hex')]: one byte per pair of hexadecimal digits; the
    decoding stops at the first pair that is not one, and a last character
    without a partner is left out. *)
Fixpoint Buffer_from_hex (s : string) : list N :=
  match s with
  | String a (String b s') =>
    match hex_value a, hex_value b with
    | Some h, Some l => (16 * h + l)%N :: Buffer_from_hex s'
    | _, _ => []
    end
  | _ => []
  end.

(** [buffer.toString('utf-8')]: a byte below 128 is the ASCII character of
    that code; a byte from 128 on decodes to (part of) a character outside
    ASCII, or to U+FFFD, which the model keeps as a character from 128 on. *)
Definition Buffer_toString_utf8 (bytes : list N) : string :=
  string_of_list_ascii (map ascii_of_N bytes).

Definition parseRevision {C} (features : Features C) : option string :=
  match revision features with
  | None => None
  | Some revision =>
    if negb (truthy_string revision) then None
    else if is_standard_notation revision then Some revision
    else
      let revisionUtf8 := Buffer_toString_utf8 (Buffer_from_hex revision) in
      if all_hex_digits revisionUtf8 then Some revisionUtf8 else Some revision
  end.

(** The encoding that the T2 firmware applies to a revision, "hexadecimal
    raw bytes notation": every byte of the text written as two hexadecimal
    digits ([Buffer.from(r).toString('hex')]). *)
Definition hex_digit (n : N) : ascii :=
  if (n <? 10)%N then ascii_of_N (48 + n) else ascii_of_N (87 + n).

Definition Buffer_from_utf8 (s : string) : list N :=
  map N_of_ascii (list_ascii_of_string s).

Fixpoint Buffer_toString_hex (bytes : list N) : string :=
  match bytes with
  | [] => EmptyString
  | b :: bytes' =>
    String (hex_digit (b / 16)) (String (hex_digit (b mod 16)) (Buffer_toString_hex bytes'))
  end.

Definition hex_encode (r : string) : string :=
  Buffer_toString_hex (Buffer_from_utf8 r).

(** The condition under which the specification calls a revision "standard
    notation containing at least one a-f character". *)
Fixpoint has_af (s : string) : bool :=
  match s with
  | EmptyString => false
  | String c s' => is_af c || has_af s'
  end.

(** ** [gatherWitnessPaths] *)

Definition Path := list Z.

(** [JSON.stringify] of an array of integers: the decimal numerals,
    separated by commas, between brackets. *)
Fixpoint JSON_elements (path : Path) : string :=
  match path with
  | [] => "]"
  | [x] => pretty x +:+ "]"
  | x :: path' => pretty x +:+ "," +:+ JSON_elements path'
  end.

Definition JSON_stringify_path (path : Path) : string :=
  "[" +:+ JSON_elements path.

(** [JSON.stringify(path)] for a path that may be [undefined]:
    [JSON.stringify(undefined)] is [undefined]. *)
Definition JSON_stringify (path : option Path) : option string :=
  JSON_stringify_path <$> path.

(** A [Map]: the entries in insertion order, no key twice. *)
Definition JsMap (K V : Type) := list (K * V).

(** [Map.prototype.set]: a key that is present keeps its place and gets
    the new value; a new key goes to the end. *)
Fixpoint Map_set {K V} `{EqDecision K} (k : K) (v : V) (m : JsMap K V) : JsMap K V :=
  match m with
  | [] => [(k, v)]
  | (k', v') :: m' =>
    if decide (k = k') then (k, v) :: m' else (k', v') :: Map_set k v m'
  end.

(** [Array.from(m.values())] *)
Definition Map_values {K V} (m : JsMap K V) : list V := map snd m.

(** Modelled from the spec: [Enum_CardanoCertificateType] is declared in
    types/trezor/protobuf, outside the sources at hand.  The specification
    names the two types that qualify, stake delegation and stake
    deregistration; every other type is kept with its numeric code. *)
Inductive CardanoCertificateType :=
  | STAKE_DELEGATION
  | STAKE_DEREGISTRATION
  | OTHER_CERTIFICATE (code : Z).

Record InputWithPath := mkInput {
  input_path : option Path
}.

Record CardanoTxCertificate := mkCertificate {
  certificate_type : CardanoCertificateType;
  certificate_path : option Path
}.

Record CardanoPoolOwner := mkPoolOwner {
  staking_key_path : option Path
}.

Record CertificateWithPoolOwnersAndRelays := mkCertificateWithPoolOwners {
  certificate : CardanoTxCertificate;
  poolOwners : list CardanoPoolOwner
}.

Record CardanoTxWithdrawal := mkWithdrawal {
  withdrawal_path : option Path
}.

(** The map [witnessPaths]: from [JSON.stringify(path)] to [path]. *)
Abbreviation WitnessPaths := (JsMap (option string) (option Path)).

(** [_insert(path)] *)
Definition _insert (path : option Path) (witnessPaths : WitnessPaths) : WitnessPaths :=
  Map_set (JSON_stringify path) path witnessPaths.

(** [if (path) _insert(path)]: an array is truthy, [undefined] is not. *)
Definition insert_if_present (path : option Path) (witnessPaths : WitnessPaths)
  : WitnessPaths :=
  match path with
  | Some p => _insert (Some p) witnessPaths
  | None => witnessPaths
  end.

(** [certificate.type === STAKE_DELEGATION || certificate.type === STAKE_DEREGISTRATION] *)
Definition is_stake_certificate (t : CardanoCertificateType) : bool :=
  match t with
  | STAKE_DELEGATION | STAKE_DEREGISTRATION => true
  | OTHER_CERTIFICATE _ => false
  end.

(** The callback of [certificatesWithPoolOwnersAndRelays.forEach]. *)
Definition insert_certificate (witnessPaths : WitnessPaths)
    (c : CertificateWithPoolOwnersAndRelays) : WitnessPaths :=
  let witnessPaths1 :=
    match certificate_path (certificate c) with
    | Some p =>
      if is_stake_certificate (certificate_type (certificate c))
      then _insert (Some p) witnessPaths
      else witnessPaths
    | None => witnessPaths
    end in
  foldl (λ wp poolOwner, insert_if_present (staking_key_path poolOwner) wp)
        witnessPaths1 (poolOwners c).

Definition gatherWitnessPaths (inputsWithPath : list InputWithPath)
    (certificatesWithPoolOwnersAndRelays : list CertificateWithPoolOwnersAndRelays)
    (withdrawals : list CardanoTxWithdrawal) : list (option Path) :=
  let witnessPaths0 : WitnessPaths := [] in
  let witnessPaths1 :=
    foldl (λ wp input, insert_if_present (input_path input) wp)
          witnessPaths0 inputsWithPath in
  let witnessPaths2 :=
    foldl insert_certificate witnessPaths1 certificatesWithPoolOwnersAndRelays in
  let witnessPaths3 :=
    foldl (λ wp w, _insert (withdrawal_path w) wp) witnessPaths2 withdrawals in
  Map_values witnessPaths3.

(** ** Notions used to state the properties *)

(** The firmware version and the key under which [CoinInfo.support] is
    read, as [getUnavailableCapabilities] computes them. *)
Definition firmware_version {C} (features : Features C) : list Z :=
  [major_version features; minor_version features; patch_version features].

Definition support_key {C} (features : Features C) : string :=
  "trezor" +:+ pretty (major_version features).

(** The key under which an asset is reported. *)
Definition coin_key (info : CoinInfo) : string := toLowerCase (shortcut info).

(** Stage 3 for one asset: its minimum version compares newer than the
    firmware. *)
Definition needs_update (key : string) (fw : list Z) (info : CoinInfo) : bool :=
  match support_version key info with
  | Some v => versionCompare v fw >? 0
  | None => false
  end.

(** What stages 1 to 3 decide for one asset, taken on its own: the first
    stage that rejects the asset gives the reason, and the later stages do
    not look at it any more. *)
Definition coin_reason (key : string) (fw : list Z) (capabilities : list Capability)
    (info : CoinInfo) : option Reason :=
  if no_support key info then Some NoSupport
  else if lacks_capability capabilities info then Some NoCapability
  else if needs_update key fw info then Some UpdateRequired
  else None.

(** Stage 4 leaves the key [k] alone: no entry of [support] lists it. *)
Definition untouched_by (support : list SupportedFirmware) (k : string) : Prop :=
  ∀ s names, s ∈ support → fw_capabilities s = Some names → k ∉ names.

(** A list without its repetitions: every element stays where it occurs for
    the first time. *)
Fixpoint dedup_first {A} `{EqDecision A} (l : list A) : list A :=
  match l with
  | [] => []
  | x :: l' => x :: filter (λ y, y ≠ x) (dedup_first l')
  end.

(** The paths that are present among those of the inputs. *)
Definition input_paths (inputs : list InputWithPath) : list (option Path) :=
  filter (λ p, is_Some p) (map input_path inputs).

(** The declared path of a certificate, when the certificate has one and is
    a stake delegation or a stake deregistration. *)
Definition declared_path (c : CertificateWithPoolOwnersAndRelays) : list (option Path) :=
  match certificate_path (certificate c) with
  | Some p =>
    if is_stake_certificate (certificate_type (certificate c)) then [Some p] else []
  | None => []
  end.

(** The staking-key paths that are present among the pool owners of a
    certificate. *)
Definition pool_owner_paths (c : CertificateWithPoolOwnersAndRelays) : list (option Path) :=
  filter (λ p, is_Some p) (map staking_key_path (poolOwners c)).

(** The sequence in which [gatherWitnessPaths] inserts: the inputs, then
    certificate by certificate the declared path followed by the pool
    owners of that certificate, then the withdrawals. *)
Definition inserted_paths (inputs : list InputWithPath)
    (certificates : list CertificateWithPoolOwnersAndRelays)
    (withdrawals : list CardanoTxWithdrawal) : list (option Path) :=
  (input_paths inputs
   ++ concat (map (λ c, declared_path c ++ pool_owner_paths c) certificates)
   ++ map withdrawal_path withdrawals)%list.

(** The insertion sequence in the words of the specification (4.5): "all
    input-derived paths first, then one path per qualifying certificate by
    declared path, then each certificate's pool-owner staking-key paths, then
    each withdrawal's path". *)
Definition spec_inserted_paths (inputs : list InputWithPath)
    (certificates : list CertificateWithPoolOwnersAndRelays)
    (withdrawals : list CardanoTxWithdrawal) : list (option Path) :=
  (input_paths inputs
   ++ concat (map declared_path certificates)
   ++ concat (map pool_owner_paths certificates)
   ++ map withdrawal_path withdrawals)%list.

(** [list[key_of(x)] = value] for every [x] of [items], in order. *)
Definition mark {A} (key_of : A → string) (value : Reason) (items : list A)
    (report : UnavailableCapabilities) : UnavailableCapabilities :=
  foldl (λ r x, set_property (key_of x) value r) report items.

(** [_insert] for every path of a list, in order. *)
Definition insert_all (paths : list (option Path)) (witnessPaths : WitnessPaths)
  : WitnessPaths :=
  foldl (λ wp path, _insert path wp) witnessPaths paths.

(** The entries of [witnessPaths] whose values are [paths]. *)
Definition entries_of (paths : list (option Path)) : WitnessPaths :=
  map (λ path, (JSON_stringify path, path)) paths.

(** The characters that end a numeral in [JSON.stringify(path)]. *)
Definition is_delimiter (c : ascii) : bool :=
  Ascii.eqb c "," || Ascii.eqb c "]".

Fixpoint no_delimiter (s : string) : bool :=
  match s with
  | EmptyString => true
  | String c s' => negb (is_delimiter c) && no_delimiter s'
  end.

(** A capability code that has an entry in the table. *)
Definition known_code (c : Z) : bool := (1 <=? c) && (c <=? 17).

(** What the callback of stage 4 writes under the names of an entry, if
    anything: the second [if] has the last word. *)
Definition entry_reason (fw : list Z) (s : SupportedFirmware) : option Reason :=
  let min := bound_for (fw_min s) fw in
  let max := bound_for (fw_max s) fw in
  if max_applies max fw then Some TrezorConnectOutdated
  else if min_applies min fw then
    Some (if bool_decide (min = Some "0") then NoSupport else UpdateRequired)
  else None.

(** Stage 4 does not write under the key [k]: every entry of [support] that
    lists [k] has no bound that applies to the firmware. *)
Definition unwritten_by (fw : list Z) (support : list SupportedFirmware)
    (k : string) : Prop :=
  ∀ s names, s ∈ support → fw_capabilities s = Some names → k ∈ names →
             entry_reason fw s = None.

(** The features with the field [capabilities] replaced, the way the caller
    stores the parsed capabilities before it asks for the unavailable ones. *)
Definition with_capabilities {C D} (features : Features C)
    (capabilities0 : option (list D)) : Features D :=
  mkFeatures (firmware_present features) (major_version features)
             (minor_version features) (patch_version features)
             capabilities0 (revision features).

(** The features with the field [revision] replaced. *)
Definition with_revision {C} (features : Features C) (revision0 : option string)
  : Features C :=
  mkFeatures (firmware_present features) (major_version features)
             (minor_version features) (patch_version features)
             (capabilities features) revision0.

(** * Properties *)

(** ** [parseCapabilities] *)

Lemma CAPABILITIES_length : length CAPABILITIES = 17%nat.
Proof. reflexivity. Qed.

Lemma capability_filter_in_range (c : Z) :
  1 ≤ c ≤ 17 →
  ∃ name, CAPABILITIES !! Z.to_nat (c - 1) = Some name ∧ capability_filter c = [name].
Proof.
  intros Hc. unfold capability_filter, array_get.
  destruct (Z.ltb_spec (c - 1) 0) as [?|_]; [lia|].
  assert (Z.to_nat (c - 1) < 17)%nat as Hn by lia.
  revert Hn. generalize (Z.to_nat (c - 1)). intros n Hn.
  do 17 (destruct n as [|n]; [eexists; split; reflexivity|]).
  lia.
Qed.

Lemma capability_filter_out_of_range (c : Z) :
  c ≤ 0 ∨ 17 < c → capability_filter c = [].
Proof.
  intros Hc. unfold capability_filter, array_get.
  destruct (Z.ltb_spec (c - 1) 0) as [?|?]; [reflexivity|].
  rewrite (lookup_ge_None_2 CAPABILITIES (Z.to_nat (c - 1))); [reflexivity|].
  rewrite CAPABILITIES_length. lia.
Qed.

Lemma capability_filter_in_table (c : Z) (name : Capability) :
  name ∈ capability_filter c → name ∈ CAPABILITIES.
Proof.
  unfold capability_filter, array_get.
  destruct (c - 1 <? 0); [by intros ?%elem_of_nil|].
  destruct (CAPABILITIES !! Z.to_nat (c - 1)) as [entry|] eqn:Hentry;
    [|by intros ?%elem_of_nil].
  destruct (truthy (Some entry)); [|by intros ?%elem_of_nil].
  intros ->%list_elem_of_singleton. by eapply list_elem_of_lookup_2.
Qed.

Lemma flatMap_capability_filter_in_table (codes : list Z) (name : Capability) :
  name ∈ flatMap capability_filter codes → name ∈ CAPABILITIES.
Proof.
  unfold flatMap. induction codes as [|c codes IH]; [by intros ?%elem_of_nil|].
  cbn [map concat]. rewrite elem_of_app. intros [Hc|Hcs]; [|by apply IH].
  by eapply capability_filter_in_table.
Qed.

(** C6. Without features, or with features whose [firmware_present] is
    [false], [parseCapabilities] returns the empty array. *)
Theorem parseCapabilities_no_firmware (features : option (Features Z)) :
  (features = None ∨ ∃ f, features = Some f ∧ firmware_present f = Some false) →
  parseCapabilities features = [].
Proof.
  intros [-> | (f & -> & Hf)]; [reflexivity|].
  unfold parseCapabilities. rewrite Hf. reflexivity.
Qed.

Lemma parseCapabilities_no_firmware_witness :
  (let features := Some (mkFeatures (Some false) 2 3 0 (Some [1; 2; 7]) None) in
   (features = None ∨ ∃ f, features = Some f ∧ firmware_present f = Some false)
   ∧ parseCapabilities features = []).
Proof.
  split.
  - right. eexists. split; reflexivity.
  - apply parseCapabilities_no_firmware. right. eexists. split; reflexivity.
Defined.

(** C5. With firmware present, no capability codes (the field absent, or an
    empty array) and major version 1, [parseCapabilities] returns the
    entries 1, 2, 5, 7, 10, 12 and 14 of the table, counted from 1, in that
    order. *)
Theorem parseCapabilities_default_T1 (f : Features Z) :
  firmware_present f ≠ Some false →
  capabilities f = None ∨ capabilities f = Some [] →
  major_version f = 1 →
  Forall2 (λ i name, CAPABILITIES !! (i - 1)%nat = Some name)
          [1; 2; 5; 7; 10; 12; 14]%nat (parseCapabilities (Some f))
  ∧ parseCapabilities (Some f) =
    [ "Capability_Bitcoin"; "Capability_Bitcoin_like"; "Capability_Crypto";
      "Capability_Ethereum"; "Capability_NEM"; "Capability_Stellar";
      "Capability_U2F" ].
Proof.
  intros Hfw Hcaps Hmajor.
  assert (parseCapabilities (Some f) = flatMap capability_filter DEFAULT_CAPABILITIES_T1) as ->.
  { unfold parseCapabilities. rewrite bool_decide_eq_false_2 by done.
    destruct Hcaps as [-> | ->]; simpl; rewrite Hmajor; reflexivity. }
  split; [|reflexivity].
  repeat constructor.
Qed.

Lemma parseCapabilities_default_T1_witness :
  (let f := mkFeatures (Some true) 1 8 0 (Some []) None in
   firmware_present f ≠ Some false
   ∧ (capabilities f = None ∨ capabilities f = Some [])
   ∧ major_version f = 1
   ∧ parseCapabilities (Some f) =
     [ "Capability_Bitcoin"; "Capability_Bitcoin_like"; "Capability_Crypto";
       "Capability_Ethereum"; "Capability_NEM"; "Capability_Stellar";
       "Capability_U2F" ]).
Proof.
  split; [discriminate|]. split; [right; reflexivity|]. split; [reflexivity|].
  apply (parseCapabilities_default_T1 (mkFeatures (Some true) 1 8 0 (Some []) None));
    [discriminate | right; reflexivity | reflexivity].
Defined.

(** The entry of the table for a code, read off the table itself. *)
Lemma flatMap_capability_filter_omap (codes : list Z) :
  flatMap capability_filter codes
  = omap (λ c, if bool_decide (1 ≤ c ≤ 17)
               then CAPABILITIES !! Z.to_nat (c - 1) else None) codes.
Proof.
  unfold flatMap. induction codes as [|c codes IH]; [done|].
  cbn [map concat omap list_omap]. rewrite IH.
  destruct (decide (1 ≤ c ≤ 17)) as [Hc|Hc].
  - rewrite bool_decide_eq_true_2 by done.
    destruct (capability_filter_in_range c Hc) as (name & -> & ->). done.
  - rewrite bool_decide_eq_false_2 by done.
    rewrite capability_filter_out_of_range by lia. done.
Qed.

(** On features of the declared type [parseCapabilities] does not throw:
    the run on the features as they arrive returns the result of the typed
    function. *)
Lemma parseCapabilities_any_typed (features : option (Features Z)) :
  parseCapabilities_any (to_raw <$> features) = Returned (parseCapabilities features).
Proof.
  destruct features as [f|]; [|done]. simpl.
  unfold parseCapabilities, to_raw. simpl.
  destruct (bool_decide (firmware_present f = Some false)); [done|].
  destruct (capabilities f) as [[|c codes]|]; done.
Qed.

(** Among the shapes of the model, only a non-empty string makes
    [parseCapabilities] throw. *)
Lemma parseCapabilities_any_thrown (raw : RawFeatures) :
  (∃ error, parseCapabilities_any (Some raw) = Thrown error)
  ↔ raw_firmware_present raw ≠ Some false
    ∧ ∃ s, raw_capabilities raw = JsString s ∧ s ≠ "".
Proof.
  unfold parseCapabilities_any. split.
  - intros [error Hthrown]. case_bool_decide as Hfw; [discriminate|].
    split; [done|].
    destruct (raw_capabilities raw) as [| |b|n|s|items] eqn:Hcaps; simpl in Hthrown;
      try discriminate.
    + by destruct b.
    + by destruct (n =? 0).
    + exists s. split; [done|]. intros ->. discriminate.
    + by destruct items.
  - intros [Hfw (s & -> & Hs)]. rewrite bool_decide_eq_false_2 by done.
    destruct s as [|c s]; [done|]. simpl. eauto.
Qed.

(** C7, as the code has it.  When the device reports capability codes
    (firmware present, a non-empty array of codes), [parseCapabilities]
    replaces every code from 1 to 17 by the entry of the table at that
    position, counted from 1, and drops every other code, in the order of
    the codes.  Its result only holds entries of the table.  It does not
    throw on features of the declared type (absent or present, [capabilities]
    absent or an array of integers), nor when [capabilities] is [null], a
    boolean, a number or the empty string; it throws a [TypeError] exactly
    when the firmware is not reported absent and [capabilities] is a
    non-empty string, whose missing method [flatMap] the code calls. *)
Theorem parseCapabilities_reported (f : Features Z) (codes : list Z) :
  firmware_present f ≠ Some false →
  capabilities f = Some codes →
  codes ≠ [] →
  parseCapabilities (Some f)
  = omap (λ c, if bool_decide (1 ≤ c ≤ 17)
               then CAPABILITIES !! Z.to_nat (c - 1) else None) codes
  ∧ (∀ c, 1 ≤ c ≤ Z.of_nat (length CAPABILITIES) →
          is_Some (CAPABILITIES !! Z.to_nat (c - 1)))
  ∧ (∀ features name, name ∈ parseCapabilities features → name ∈ CAPABILITIES)
  ∧ (∀ features,
       parseCapabilities_any (to_raw <$> features) = Returned (parseCapabilities features))
  ∧ (∀ raw, (∃ error, parseCapabilities_any (Some raw) = Thrown error)
            ↔ raw_firmware_present raw ≠ Some false
              ∧ ∃ s, raw_capabilities raw = JsString s ∧ s ≠ "").
Proof.
  intros Hfw Hcaps Hne. split; [|split; [|split; [|split]]].
  - unfold parseCapabilities. rewrite bool_decide_eq_false_2 by done.
    rewrite Hcaps. destruct codes as [|c codes]; [done|].
    apply flatMap_capability_filter_omap.
  - intros c Hc. rewrite CAPABILITIES_length in Hc.
    destruct (capability_filter_in_range c Hc) as (name & -> & _). eauto.
  - intros features name. unfold parseCapabilities.
    repeat case_match; try (by intros ?%elem_of_nil);
      apply flatMap_capability_filter_in_table.
  - apply parseCapabilities_any_typed.
  - apply parseCapabilities_any_thrown.
Qed.

Lemma parseCapabilities_reported_witness :
  (let f := mkFeatures None 2 3 0 (Some [0; 1; 17; 18; -3; 7; 1]) None in
   firmware_present f ≠ Some false
   ∧ capabilities f = Some [0; 1; 17; 18; -3; 7; 1]
   ∧ [0; 1; 17; 18; -3; 7; 1] ≠ []
   ∧ parseCapabilities (Some f)
     = ["Capability_Bitcoin"; "Capability_PassphraseEntry"; "Capability_Ethereum";
        "Capability_Bitcoin"]).
Proof.
  split; [discriminate|]. split; [reflexivity|]. split; [discriminate|].
  destruct (parseCapabilities_reported
              (mkFeatures None 2 3 0 (Some [0; 1; 17; 18; -3; 7; 1]) None)
              [0; 1; 17; 18; -3; 7; 1]) as [-> _];
    [discriminate | reflexivity | discriminate | reflexivity].
Defined.

(** C7 does not hold on every input shape: with a non-empty string in the
    field [capabilities], which the declared type excludes and nothing
    checks, the call of [capabilities.flatMap] throws. *)
Lemma parseCapabilities_any_throws :
  parseCapabilities_any (Some (mkRawFeatures (Some true) 2 (JsString "abc")))
  = Thrown "TypeError".
Proof. reflexivity. Qed.

Example example_codes_out_of_range :
  parseCapabilities (Some (mkFeatures None 2 3 0 (Some [0; 1; 17; 18; -3; 7]) None))
  = ["Capability_Bitcoin"; "Capability_PassphraseEntry"; "Capability_Ethereum"].
Proof. reflexivity. Qed.

(** ** [getUnavailableCapabilities] *)

(** *** Writing one value under the keys of a list *)

Lemma set_property_lookup (key : string) (value : Reason)
    (object : UnavailableCapabilities) (k : string) :
  set_property key value object !! k
  = if decide (key = k ∧ k ≠ "__proto__") then Some value else object !! k.
Proof.
  unfold set_property. destruct (String.eqb_spec key "__proto__") as [->|Hkey].
  - rewrite decide_False; [done|]. by intros [<- ?].
  - destruct (decide (key = k)) as [<-|Hne].
    + rewrite decide_True by done. apply lookup_insert_eq.
    + rewrite decide_False by (by intros [? _]). by apply lookup_insert_ne.
Qed.

Section marking.
Context {A : Type} (key_of : A → string) (value : Reason).

Lemma mark_app (xs ys : list A) (report : UnavailableCapabilities) :
  mark key_of value (xs ++ ys) report = mark key_of value ys (mark key_of value xs report).
Proof. apply foldl_app. Qed.

Lemma mark_snoc (xs : list A) (x : A) (report : UnavailableCapabilities) :
  mark key_of value (xs ++ [x]) report
  = set_property (key_of x) value (mark key_of value xs report).
Proof. apply mark_app. Qed.

Lemma mark_lookup_other (items : list A) (report : UnavailableCapabilities) k :
  (∀ x, x ∈ items → key_of x ≠ k) →
  mark key_of value items report !! k = report !! k.
Proof.
  induction items as [|x items IH] using rev_ind; intros Hk; [done|].
  rewrite mark_snoc, set_property_lookup, decide_False.
  - apply IH. intros y Hy. apply Hk, elem_of_app. by left.
  - intros [Hx _]. revert Hx. apply Hk, elem_of_app. right.
    by apply list_elem_of_singleton.
Qed.

(** No write creates a property "__proto__". *)
Lemma mark_lookup_proto (items : list A) (report : UnavailableCapabilities) :
  mark key_of value items report !! "__proto__" = report !! "__proto__".
Proof.
  induction items as [|x items IH] using rev_ind; [done|].
  rewrite mark_snoc, set_property_lookup, decide_False; [done|]. by intros [_ ?].
Qed.

Lemma mark_lookup_marked (items : list A) (report : UnavailableCapabilities) x :
  x ∈ items → key_of x ≠ "__proto__" →
  mark key_of value items report !! key_of x = Some value.
Proof.
  induction items as [|z items IH] using rev_ind; intros Hx Hproto.
  - by apply elem_of_nil in Hx.
  - rewrite mark_snoc, set_property_lookup.
    destruct (decide (key_of z = key_of x)) as [Hz|Hz].
    + by rewrite decide_True.
    + rewrite decide_False by (by intros [? _]). apply IH; [|done].
      apply elem_of_app in Hx as [Hx|Hx]; [done|].
      apply list_elem_of_singleton in Hx as ->. done.
Qed.
End marking.

(** *** The stages, one by one *)

Lemma filter_supported_eq (key : string) (coins : list CoinInfo)
    (report : UnavailableCapabilities) :
  filter_supported key coins report =
  (filter (λ info, no_support key info = false) coins,
   mark coin_key NoSupport (filter (λ info, no_support key info = true) coins) report).
Proof.
  revert report. induction coins as [|info coins IH]; intros report; [done|].
  simpl. destruct (no_support key info) eqn:Hs.
  - rewrite IH, filter_cons_False, filter_cons_True by (by rewrite ?Hs). done.
  - rewrite IH, filter_cons_True, filter_cons_False by (by rewrite ?Hs). done.
Qed.

Lemma mark_no_capability_eq (unavailable : list CoinInfo)
    (report : UnavailableCapabilities) :
  mark_no_capability unavailable report = mark coin_key NoCapability unavailable report.
Proof. reflexivity. Qed.

Lemma mark_all_eq (value : Reason) (names : list string)
    (report : UnavailableCapabilities) :
  mark_all value names report = mark id value names report.
Proof. reflexivity. Qed.

(** The array [unavailable] only serves to tell which assets stage 2
    rejected: pushing to it in stage 3 does not change [list]. *)
Lemma check_version_fold (key : string) (fw : list Z) (infos : list CoinInfo)
    (report : UnavailableCapabilities) (unavailable : list CoinInfo) :
  fst (foldl (check_version key fw) (report, unavailable) infos) =
  mark coin_key UpdateRequired (filter (λ info, needs_update key fw info = true) infos) report.
Proof.
  revert report unavailable.
  induction infos as [|info infos IH]; intros report unavailable; [done|].
  simpl. unfold check_version at 2, needs_update at 1.
  destruct (support_version key info) as [v|] eqn:Hv.
  - destruct (versionCompare v fw >? 0) eqn:Hc; simpl.
    + rewrite IH, filter_cons_True by (unfold needs_update; by rewrite Hv, Hc). done.
    + rewrite IH, filter_cons_False by (unfold needs_update; by rewrite Hv, Hc). done.
  - rewrite IH, filter_cons_False by (unfold needs_update; by rewrite Hv). done.
Qed.

Lemma filter_ext_elem_of {A} (P Q : A → Prop)
    `{!∀ x, Decision (P x), !∀ x, Decision (Q x)} (l : list A) :
  (∀ x, x ∈ l → P x ↔ Q x) → filter P l = filter Q l.
Proof.
  induction l as [|a l IH]; intros HPQ; [done|].
  rewrite !filter_cons. rewrite IH by (intros x Hx; apply HPQ; by right).
  apply decide_ext, HPQ. left.
Qed.

(** An asset is in [unavailable] after stage 2 exactly when it lacks its
    capability, whether [includes] compares objects by identity or by
    content: [unavailable] is [supported] filtered by a condition on the
    content. *)
Lemma not_in_unavailable (capabilities : list Capability) (supported : list CoinInfo) :
  filter (λ info, negb (includes info
            (filter (λ i, lacks_capability capabilities i = true) supported)) = true)
         supported
  = filter (λ info, lacks_capability capabilities info = false) supported.
Proof.
  apply filter_ext_elem_of. intros info Hin. unfold includes.
  rewrite negb_true_iff, bool_decide_eq_false, list_elem_of_filter.
  destruct (lacks_capability capabilities info); intuition congruence.
Qed.

Lemma filter_coin_reason (key : string) (fw : list Z) (capabilities : list Capability)
    (coins : list CoinInfo) :
  filter (λ info, no_support key info = true) coins
  = filter (λ info, coin_reason key fw capabilities info = Some NoSupport) coins
  ∧ filter (λ info, lacks_capability capabilities info = true)
           (filter (λ info, no_support key info = false) coins)
    = filter (λ info, coin_reason key fw capabilities info = Some NoCapability) coins
  ∧ filter (λ info, needs_update key fw info = true)
      (filter (λ info, lacks_capability capabilities info = false)
              (filter (λ info, no_support key info = false) coins))
    = filter (λ info, coin_reason key fw capabilities info = Some UpdateRequired) coins.
Proof.
  rewrite !list_filter_filter. split; [|split]; apply list_filter_iff; intros info;
    unfold coin_reason;
    destruct (no_support key info), (lacks_capability capabilities info),
             (needs_update key fw info); intuition congruence.
Qed.

(** Stages 1 to 3 as three rounds of writes, in the order of the stages. *)
Lemma coin_stages_eq (f : Features Capability) (capabilities : list Capability)
    (coins : list CoinInfo) :
  let reason := coin_reason (support_key f) (firmware_version f) capabilities in
  coin_stages f capabilities coins =
  mark coin_key UpdateRequired (filter (λ info, reason info = Some UpdateRequired) coins)
    (mark coin_key NoCapability (filter (λ info, reason info = Some NoCapability) coins)
      (mark coin_key NoSupport (filter (λ info, reason info = Some NoSupport) coins) ∅)).
Proof.
  intros reason. unfold coin_stages.
  fold (support_key f). fold (firmware_version f).
  rewrite filter_supported_eq. unfold check_versions.
  rewrite check_version_fold, not_in_unavailable, mark_no_capability_eq.
  destruct (filter_coin_reason (support_key f) (firmware_version f) capabilities coins)
    as (-> & -> & ->).
  done.
Qed.

(** Stage 4 only writes under the names that the entries list. *)
Lemma check_firmware_range_other (fw : list Z) (support : list SupportedFirmware)
    (report : UnavailableCapabilities) (k : string) :
  untouched_by support k →
  foldl (check_firmware_range fw) report support !! k = report !! k.
Proof.
  revert report. induction support as [|s support IH]; intros report Hk; [done|].
  simpl. rewrite IH.
  - unfold check_firmware_range.
    destruct (fw_capabilities s) as [names|] eqn:Hnames; [|done].
    assert (k ∉ names) as Hnot by (eapply Hk; [left|done]).
    assert (∀ value r, mark_all value names r !! k = r !! k) as Hmark.
    { intros value r. rewrite mark_all_eq. apply mark_lookup_other.
      intros x Hx. unfold id. by intros ->. }
    unfold check_max, check_min.
    repeat case_match; rewrite ?Hmark; done.
  - intros s' names Hs'. apply Hk. by right.
Qed.

Lemma untouched_unwritten (fw : list Z) (support : list SupportedFirmware)
    (k : string) :
  untouched_by support k → unwritten_by fw support k.
Proof. intros Hk s names Hs Hnames Hin. by destruct (Hk s names Hs Hnames). Qed.

Lemma entry_reason_None (fw : list Z) (s : SupportedFirmware) :
  entry_reason fw s = None →
  max_applies (bound_for (fw_max s) fw) fw = false
  ∧ min_applies (bound_for (fw_min s) fw) fw = false.
Proof.
  unfold entry_reason.
  destruct (max_applies _ _); [discriminate|].
  destruct (min_applies _ _); [discriminate|done].
Qed.

(** Stage 4 leaves alone what no applicable entry lists. *)
Lemma check_firmware_range_unwritten (fw : list Z) (support : list SupportedFirmware)
    (report : UnavailableCapabilities) (k : string) :
  unwritten_by fw support k →
  foldl (check_firmware_range fw) report support !! k = report !! k.
Proof.
  revert report. induction support as [|s support IH]; intros report Hk; [done|].
  simpl. rewrite IH.
  - unfold check_firmware_range.
    destruct (fw_capabilities s) as [names|] eqn:Hnames; [|done].
    destruct (decide (k ∈ names)) as [Hin|Hnot].
    + destruct (entry_reason_None fw s) as [Hmax Hmin]; [eapply Hk; [left|done..]|].
      unfold check_max, check_min. by rewrite Hmax, Hmin.
    + assert (∀ value r, mark_all value names r !! k = r !! k) as Hmark.
      { intros value r. rewrite mark_all_eq. apply mark_lookup_other.
        intros x Hx. unfold id. by intros ->. }
      unfold check_max, check_min.
      repeat case_match; rewrite ?Hmark; done.
  - intros s' names Hs'. apply Hk. by right.
Qed.

(** *** What stages 1 to 3 leave under a key *)

(** Among the assets reported under the key [k], the latest stage that
    rejects one of them decides. *)
Lemma coin_stages_lookup (f : Features Capability) (capabilities : list Capability)
    (coins : list CoinInfo) (k : string) :
  k ≠ "__proto__" →
  let reason := coin_reason (support_key f) (firmware_version f) capabilities in
  let rejected r := ∃ info, info ∈ coins ∧ coin_key info = k ∧ reason info = Some r in
  let report := coin_stages f capabilities coins in
  (rejected UpdateRequired → report !! k = Some UpdateRequired)
  ∧ (¬ rejected UpdateRequired → rejected NoCapability → report !! k = Some NoCapability)
  ∧ (¬ rejected UpdateRequired → ¬ rejected NoCapability → rejected NoSupport →
     report !! k = Some NoSupport)
  ∧ (¬ rejected UpdateRequired → ¬ rejected NoCapability → ¬ rejected NoSupport →
     report !! k = None).
Proof.
  intros Hproto reason rejected report. subst report. rewrite coin_stages_eq. fold reason.
  assert (∀ r rep, rejected r →
            mark coin_key r (filter (λ info, reason info = Some r) coins) rep !! k = Some r)
    as Hhit.
  { intros r rep (info & Hin & <- & Hr). apply mark_lookup_marked; [|done].
    apply list_elem_of_filter. done. }
  assert (∀ r rep, ¬ rejected r →
            mark coin_key r (filter (λ info, reason info = Some r) coins) rep !! k = rep !! k)
    as Hmiss.
  { intros r rep Hno. apply mark_lookup_other. intros info Hin Hk.
    apply list_elem_of_filter in Hin as [Hr Hin]. apply Hno. by exists info. }
  split; [|split; [|split]].
  - intros H. by apply Hhit.
  - intros H1 H2. rewrite Hmiss by done. by apply Hhit.
  - intros H1 H2 H3. rewrite !Hmiss by done. by apply Hhit.
  - intros H1 H2 H3. rewrite !Hmiss by done. apply lookup_empty.
Qed.

(** An asset that shares its key with no other asset is reported with the
    reason of the first stage that rejects it. *)
Lemma coin_stages_lookup_unique (f : Features Capability)
    (capabilities : list Capability) (coins : list CoinInfo) (info : CoinInfo) :
  info ∈ coins →
  coin_key info ≠ "__proto__" →
  (∀ other, other ∈ coins → coin_key other = coin_key info → other = info) →
  coin_stages f capabilities coins !! coin_key info
  = coin_reason (support_key f) (firmware_version f) capabilities info.
Proof.
  intros Hin Hproto Huniq.
  destruct (coin_stages_lookup f capabilities coins (coin_key info) Hproto)
    as (Hur & Hnc & Hns & Hnone).
  set (reason := coin_reason (support_key f) (firmware_version f) capabilities) in *.
  assert (∀ r, (∃ i, i ∈ coins ∧ coin_key i = coin_key info ∧ reason i = Some r)
               ↔ reason info = Some r) as Hrej.
  { intros r. split.
    - intros (i & Hi & Hk & Hr). by rewrite <- (Huniq i Hi Hk).
    - intros Hr. by exists info. }
  destruct (reason info) as [[]|] eqn:Hr.
  - apply Hnc; rewrite Hrej; [discriminate|done].
  - apply Hns; rewrite ?Hrej; [discriminate|discriminate|done].
  - apply Hur; rewrite Hrej; done.
  - unfold reason, coin_reason in Hr. repeat case_match; discriminate.
  - apply Hnone; rewrite Hrej; discriminate.
Qed.

Lemma getUnavailableCapabilities_lookup_coin (f : Features Capability)
    (capabilities0 : list Capability) (coins : list CoinInfo)
    (support : list SupportedFirmware) (k : string) :
  capabilities f = Some capabilities0 →
  unwritten_by (firmware_version f) support k →
  getUnavailableCapabilities f coins support !! k
  = coin_stages f capabilities0 coins !! k.
Proof.
  intros Hcaps Hk. unfold getUnavailableCapabilities. rewrite Hcaps.
  by apply check_firmware_range_unwritten.
Qed.

Lemma check_firmware_range_lookup_proto (fw : list Z)
    (report : UnavailableCapabilities) (s : SupportedFirmware) :
  check_firmware_range fw report s !! "__proto__" = report !! "__proto__".
Proof.
  unfold check_firmware_range. destruct (fw_capabilities s) as [names|]; [|done].
  assert (∀ value r, mark_all value names r !! "__proto__" = r !! "__proto__") as Hmark.
  { intros value r. rewrite mark_all_eq. apply mark_lookup_proto. }
  unfold check_max, check_min.
  destruct (max_applies _ _), (min_applies _ _); rewrite ?Hmark; done.
Qed.

(** The report never has a property "__proto__". *)
Lemma getUnavailableCapabilities_lookup_proto (f : Features Capability)
    (coins : list CoinInfo) (support : list SupportedFirmware) :
  getUnavailableCapabilities f coins support !! "__proto__" = None.
Proof.
  unfold getUnavailableCapabilities.
  destruct (capabilities f) as [capabilities0|]; [|apply lookup_empty].
  induction support as [|s support IH] using rev_ind.
  - simpl. rewrite coin_stages_eq. cbv zeta. by rewrite !mark_lookup_proto.
  - by rewrite foldl_snoc, check_firmware_range_lookup_proto.
Qed.

(** C4. Without a [capabilities] field in the features,
    [getUnavailableCapabilities] returns the empty object, whatever the
    catalog and the support table hold: no asset and no capability is
    reported, not even an asset without support for the model. *)
Theorem getUnavailableCapabilities_no_capabilities (f : Features Capability)
    (coins : list CoinInfo) (support : list SupportedFirmware) :
  capabilities f = None →
  getUnavailableCapabilities f coins support = ∅
  ∧ ∀ k, getUnavailableCapabilities f coins support !! k = None.
Proof.
  intros Hcaps. unfold getUnavailableCapabilities. rewrite Hcaps.
  split; [done|]. intros k. apply lookup_empty.
Qed.

Lemma getUnavailableCapabilities_no_capabilities_witness :
  (let f := mkFeatures None 2 0 0 None None in
   let coins := [mkCoinInfo "XYZ" "Xyz" "misc" None] in
   let support := [mkSupportedFirmware (Some ["Capability_X"]) (Some ["0"; "0"]) None] in
   capabilities f = None
   ∧ no_support (support_key f) (mkCoinInfo "XYZ" "Xyz" "misc" None) = true
   ∧ getUnavailableCapabilities f coins support = ∅).
Proof.
  split; [reflexivity|]. split; [reflexivity|].
  apply (getUnavailableCapabilities_no_capabilities (mkFeatures None 2 0 0 None None)).
  reflexivity.
Defined.

(** *** Stages 1 to 3: which reason an asset ends with *)

(** C1, as the code has it.  For features with a [capabilities] field, the
    object returned holds at most one reason under a key (it is a finite
    map), and under a key [k] other than "__proto__" that stage 4 does not
    write, the reason is that of the latest stage rejecting an asset reported
    under [k]: stage 3 ('update-required') wins over stage 2
    ('no-capability'), which wins over stage 1 ('no-support').  Stage 3 does
    not examine the assets that stage 2 marked: an asset that shares its key
    with no other asset is reported with the reason of the first stage that
    rejects it, so that it keeps 'no-capability' whatever the comparison of
    its minimum version with the firmware says.  Under "__proto__" nothing is
    ever reported: the assignment creates no property of that name. *)
Theorem getUnavailableCapabilities_stage_precedence (f : Features Capability)
    (capabilities0 : list Capability) (coins : list CoinInfo)
    (support : list SupportedFirmware) (k : string) :
  capabilities f = Some capabilities0 →
  k ≠ "__proto__" →
  unwritten_by (firmware_version f) support k →
  let reason := coin_reason (support_key f) (firmware_version f) capabilities0 in
  let rejected r := ∃ info, info ∈ coins ∧ coin_key info = k ∧ reason info = Some r in
  let report := getUnavailableCapabilities f coins support in
  (rejected UpdateRequired → report !! k = Some UpdateRequired)
  ∧ (¬ rejected UpdateRequired → rejected NoCapability → report !! k = Some NoCapability)
  ∧ (¬ rejected UpdateRequired → ¬ rejected NoCapability → rejected NoSupport →
     report !! k = Some NoSupport)
  ∧ (¬ rejected UpdateRequired → ¬ rejected NoCapability → ¬ rejected NoSupport →
     report !! k = None)
  ∧ (∀ info, info ∈ coins → coin_key info = k →
       (∀ other, other ∈ coins → coin_key other = k → other = info) →
       report !! k = reason info
       ∧ (no_support (support_key f) info = false →
          lacks_capability capabilities0 info = true →
          report !! k = Some NoCapability))
  ∧ report !! "__proto__" = None.
Proof.
  intros Hcaps Hproto Hk reason rejected report. subst report.
  rewrite (getUnavailableCapabilities_lookup_coin f capabilities0) by done.
  destruct (coin_stages_lookup f capabilities0 coins k Hproto) as (H1 & H2 & H3 & H4).
  do 4 (split; [assumption|]).
  split; [|apply getUnavailableCapabilities_lookup_proto].
  intros info Hin <- Huniq.
  pose proof (coin_stages_lookup_unique f capabilities0 coins info Hin Hproto Huniq)
    as Heq.
  split; [exact Heq|]. intros Hs Hl. rewrite Heq.
  unfold coin_reason. by rewrite Hs, Hl.
Qed.

Lemma getUnavailableCapabilities_stage_precedence_witness :
  (let f := mkFeatures None 2 0 0 (Some ["Capability_Ethereum"]) None in
   let btc := mkCoinInfo "BTC" "Bitcoin" "bitcoin"
                         (Some {[ "trezor2" := SupportVersion "2.1.0" ]}) in
   let support := [mkSupportedFirmware (Some ["Capability_X"]) (Some ["0"; "0"]) None;
                   mkSupportedFirmware (Some ["btc"]) (Some ["1.9.4"]) None] in
   capabilities f = Some ["Capability_Ethereum"]
   ∧ "btc" ≠ "__proto__"
   ∧ unwritten_by (firmware_version f) support "btc"
   ∧ getUnavailableCapabilities f [btc] support !! "btc" = Some NoCapability).
Proof.
  assert (unwritten_by
            (firmware_version (mkFeatures None 2 0 0 (Some ["Capability_Ethereum"]) None))
            [mkSupportedFirmware (Some ["Capability_X"]) (Some ["0"; "0"]) None;
             mkSupportedFirmware (Some ["btc"]) (Some ["1.9.4"]) None] "btc")
    as Hk.
  { intros s names [-> | Hs]%elem_of_cons Hnames Hk.
    - injection Hnames as <-. apply list_elem_of_singleton in Hk. discriminate.
    - apply list_elem_of_singleton in Hs as ->. reflexivity. }
  assert ("btc" ≠ "__proto__") as Hproto by discriminate.
  split; [reflexivity|]. split; [exact Hproto|]. split; [exact Hk|].
  destruct (getUnavailableCapabilities_stage_precedence
              (mkFeatures None 2 0 0 (Some ["Capability_Ethereum"]) None)
              ["Capability_Ethereum"]
              [mkCoinInfo "BTC" "Bitcoin" "bitcoin"
                          (Some {[ "trezor2" := SupportVersion "2.1.0" ]})]
              [mkSupportedFirmware (Some ["Capability_X"]) (Some ["0"; "0"]) None;
               mkSupportedFirmware (Some ["btc"]) (Some ["1.9.4"]) None]
              "btc" eq_refl Hproto Hk) as (_ & _ & _ & _ & Hunique & _).
  eapply Hunique.
  - left.
  - reflexivity.
  - intros other Hother _. by apply list_elem_of_singleton in Hother.
  - reflexivity.
  - reflexivity.
Defined.

(** C1 does not hold as the specification words it: Bitcoin, supported on
    the model from firmware 2.1.0 on, on a device with firmware 2.0.0 that
    lacks [Capability_Bitcoin], is marked 'no-capability' by stage 2 and
    fails the version check of stage 3, yet ends with 'no-capability', not
    with 'update-required'. *)
Lemma getUnavailableCapabilities_no_capability_kept :
  let f := mkFeatures None 2 0 0 (Some ["Capability_Ethereum"]) None in
  let btc := mkCoinInfo "BTC" "Bitcoin" "bitcoin"
                        (Some {[ "trezor2" := SupportVersion "2.1.0" ]}) in
  no_support (support_key f) btc = false
  ∧ lacks_capability ["Capability_Ethereum"] btc = true
  ∧ versionCompare "2.1.0" (firmware_version f) > 0
  ∧ getUnavailableCapabilities f [btc] [] !! "btc" = Some NoCapability
  ∧ getUnavailableCapabilities f [btc] [] !! "btc" ≠ Some UpdateRequired.
Proof. vm_compute. repeat split; congruence. Qed.

(** Two scenarios of the specification: Bitcoin, supported from 2.0.0 on,
    on a device with firmware 2.0.0. *)
Example example_available :
  getUnavailableCapabilities
    (mkFeatures None 2 0 0 (Some (parseCapabilities
                                    (Some (mkFeatures None 2 0 0 (Some [1]) None)))) None)
    [mkCoinInfo "btc" "Bitcoin" "bitcoin" (Some {[ "trezor2" := SupportVersion "2.0.0" ]})]
    [] !! "btc" = None.
Proof. reflexivity. Qed.

Example example_no_capability :
  getUnavailableCapabilities
    (mkFeatures None 2 0 0 (Some (parseCapabilities
                                    (Some (mkFeatures None 2 0 0 (Some [2]) None)))) None)
    [mkCoinInfo "btc" "Bitcoin" "bitcoin" (Some {[ "trezor2" := SupportVersion "2.0.0" ]})]
    [] !! "btc" = Some NoCapability.
Proof. reflexivity. Qed.

(** An asset whose shortcut lower-cases to "__proto__" is never reported,
    whichever stage rejects it. *)
Example example_proto_shortcut :
  getUnavailableCapabilities
    (mkFeatures None 2 0 0 (Some []) None)
    [mkCoinInfo "__PROTO__" "Proto" "misc" None;
     mkCoinInfo "ABC" "Abc" "misc" None]
    [] = {[ "abc" := NoSupport ]}.
Proof. reflexivity. Qed.

(** *** Stage 1: assets without support for the model *)

(** C2, as the code has it.  For features with a [capabilities] field, an
    asset of the catalog without a string under the key of the model is not
    among the assets that stages 2 and 3 go through, and stage 1 writes
    'no-support' under its key, unless that key is "__proto__"; the object
    returned has 'no-support' under that key when stage 4 does not write it
    and stages 2 and 3 mark no asset reported under the same key.  Neither
    the capabilities nor the firmware version matter for this.  Under
    "__proto__" nothing is ever reported. *)
Theorem getUnavailableCapabilities_no_support (f : Features Capability)
    (capabilities0 : list Capability) (coins : list CoinInfo)
    (support : list SupportedFirmware) (info : CoinInfo) :
  capabilities f = Some capabilities0 →
  info ∈ coins →
  no_support (support_key f) info = true →
  let stage1 := filter_supported (support_key f) coins ∅ in
  (info ∉ fst stage1)
  ∧ (coin_key info ≠ "__proto__" → snd stage1 !! coin_key info = Some NoSupport)
  ∧ (coin_key info ≠ "__proto__" →
     unwritten_by (firmware_version f) support (coin_key info) →
     (∀ other, other ∈ coins → coin_key other = coin_key info →
               no_support (support_key f) other = false →
               lacks_capability capabilities0 other = false
               ∧ needs_update (support_key f) (firmware_version f) other = false) →
     getUnavailableCapabilities f coins support !! coin_key info = Some NoSupport)
  ∧ getUnavailableCapabilities f coins support !! "__proto__" = None.
Proof.
  intros Hcaps Hin Hns stage1. subst stage1. rewrite filter_supported_eq. simpl.
  split; [|split; [|split]].
  - rewrite list_elem_of_filter. intros [Hs _]. congruence.
  - intros Hproto. apply mark_lookup_marked; [|done]. by apply list_elem_of_filter.
  - intros Hproto Hk Hall.
    rewrite (getUnavailableCapabilities_lookup_coin f capabilities0) by done.
    destruct (coin_stages_lookup f capabilities0 coins (coin_key info) Hproto)
      as (_ & _ & H3 & _).
    assert (∀ other r, other ∈ coins → coin_key other = coin_key info →
              coin_reason (support_key f) (firmware_version f) capabilities0 other
              = Some r → r = NoSupport) as Hreason.
    { intros other r Ho Hko. unfold coin_reason.
      destruct (no_support (support_key f) other) eqn:Hso; [congruence|].
      destruct (Hall other Ho Hko Hso) as [-> ->]. discriminate. }
    apply H3.
    + intros (other & Ho & Hko & Hr). by apply Hreason in Hr.
    + intros (other & Ho & Hko & Hr). by apply Hreason in Hr.
    + exists info. split; [done|]. split; [done|]. unfold coin_reason. by rewrite Hns.
  - apply getUnavailableCapabilities_lookup_proto.
Qed.

Lemma getUnavailableCapabilities_no_support_witness :
  (let f := mkFeatures None 2 5 0 (Some ["Capability_Xyz"]) None in
   let xyz := mkCoinInfo "XYZ" "Xyz" "misc"
                         (Some {[ "trezor1" := SupportVersion "1.6.2";
                                  "trezor2" := SupportFlag false ]}) in
   let xyz' := mkCoinInfo "xyz" "Xyz" "misc"
                          (Some {[ "trezor2" := SupportVersion "2.1.0" ]}) in
   let support := [mkSupportedFirmware (Some ["xyz"]) (Some ["1.9.4"]) None] in
   capabilities f = Some ["Capability_Xyz"]
   ∧ xyz ∈ [xyz'; xyz]
   ∧ no_support (support_key f) xyz = true
   ∧ coin_key xyz ≠ "__proto__"
   ∧ unwritten_by (firmware_version f) support (coin_key xyz)
   ∧ getUnavailableCapabilities f [xyz'; xyz] support !! "xyz" = Some NoSupport).
Proof.
  assert (unwritten_by
            (firmware_version (mkFeatures None 2 5 0 (Some ["Capability_Xyz"]) None))
            [mkSupportedFirmware (Some ["xyz"]) (Some ["1.9.4"]) None] "xyz") as Hk.
  { intros s names ->%list_elem_of_singleton _ _. reflexivity. }
  assert ("xyz" ≠ "__proto__") as Hproto by discriminate.
  split; [reflexivity|]. split; [right; left|]. split; [reflexivity|].
  split; [exact Hproto|]. split; [exact Hk|].
  destruct (getUnavailableCapabilities_no_support
              (mkFeatures None 2 5 0 (Some ["Capability_Xyz"]) None) ["Capability_Xyz"]
              [mkCoinInfo "xyz" "Xyz" "misc"
                          (Some {[ "trezor2" := SupportVersion "2.1.0" ]});
               mkCoinInfo "XYZ" "Xyz" "misc"
                          (Some {[ "trezor1" := SupportVersion "1.6.2";
                                   "trezor2" := SupportFlag false ]})]
              [mkSupportedFirmware (Some ["xyz"]) (Some ["1.9.4"]) None]
              (mkCoinInfo "XYZ" "Xyz" "misc"
                          (Some {[ "trezor1" := SupportVersion "1.6.2";
                                   "trezor2" := SupportFlag false ]}))
              eq_refl (list_elem_of_further _ _ _ (list_elem_of_here _ _)))
    as (_ & _ & Hfinal & _); [reflexivity|].
  apply Hfinal; [exact Hproto | exact Hk |].
  intros other [-> | Hother]%elem_of_cons _ Hsupported.
  - split; reflexivity.
  - apply list_elem_of_singleton in Hother as ->. discriminate Hsupported.
Defined.

(** C2 does not hold for every device and every catalog.  When the features
    have no [capabilities] field nothing is reported, hence not the asset
    without support either; when a second asset, supported on the model, is
    reported under the same lower-cased shortcut, stage 2 overwrites the
    'no-support' of the first; and an asset whose shortcut lower-cases to
    "__proto__" is not reported at all. *)
Lemma getUnavailableCapabilities_no_support_not_reported :
  let xyz := mkCoinInfo "XYZ" "Xyz" "misc" None in
  let xyz' := mkCoinInfo "xyz" "Xyz" "misc"
                         (Some {[ "trezor2" := SupportVersion "2.0.0" ]}) in
  let proto := mkCoinInfo "__PROTO__" "Proto" "misc" None in
  let f := mkFeatures None 2 5 0 None None in
  let f' := mkFeatures None 2 5 0 (Some []) None in
  no_support (support_key f) xyz = true
  ∧ getUnavailableCapabilities f [xyz] [] !! coin_key xyz = None
  ∧ no_support (support_key f') xyz = true
  ∧ getUnavailableCapabilities f' [xyz; xyz'] [] !! coin_key xyz = Some NoCapability
  ∧ no_support (support_key f') proto = true
  ∧ getUnavailableCapabilities f' [proto] [] !! coin_key proto = None.
Proof. vm_compute. repeat split. Qed.

(** *** Stage 4: the ranges of "config.supportedFirmware" *)

Lemma mark_all_lookup (value : Reason) (names : list string)
    (report : UnavailableCapabilities) (m : string) :
  m ∈ names → m ≠ "__proto__" → mark_all value names report !! m = Some value.
Proof.
  intros Hm Hproto. rewrite mark_all_eq.
  exact (mark_lookup_marked id value names report m Hm Hproto).
Qed.

(** What the callback of stage 4 leaves under a name that the entry lists. *)
Lemma check_firmware_range_lookup (fw : list Z) (report : UnavailableCapabilities)
    (s : SupportedFirmware) (names : list string) (m : string) :
  fw_capabilities s = Some names →
  m ∈ names →
  m ≠ "__proto__" →
  let min := bound_for (fw_min s) fw in
  let max := bound_for (fw_max s) fw in
  check_firmware_range fw report s !! m =
  if max_applies max fw then Some TrezorConnectOutdated
  else if min_applies min fw then
    Some (if bool_decide (min = Some "0") then NoSupport else UpdateRequired)
  else report !! m.
Proof.
  intros Hnames Hm Hproto min max. unfold check_firmware_range. rewrite Hnames.
  fold min. fold max. unfold check_max, check_min.
  destruct (max_applies max fw); [by apply mark_all_lookup|].
  destruct (min_applies min fw); [by apply mark_all_lookup|done].
Qed.

(** C3, as the code has it.  For features with a [capabilities] field, an
    entry [s] of the support table that lists capability names, and a name
    [m] other than "__proto__" that it lists and under which no later entry
    writes: the object returned has under [m]
    - 'trezor-connect-outdated' when the maximum of [s] for the major
      version is a non-empty string that compares older than the firmware;
    - otherwise 'no-support' when the minimum of [s] for the major version
      is "0";
    - otherwise 'update-required' when that minimum is a non-empty string
      that compares newer than the firmware.
    Under "__proto__" nothing is ever reported. *)
Theorem getUnavailableCapabilities_firmware_range (f : Features Capability)
    (capabilities0 : list Capability) (coins : list CoinInfo)
    (before after : list SupportedFirmware) (s : SupportedFirmware)
    (names : list string) (m : string) :
  capabilities f = Some capabilities0 →
  fw_capabilities s = Some names →
  m ∈ names →
  m ≠ "__proto__" →
  unwritten_by (firmware_version f) after m →
  let fw := firmware_version f in
  let min := bound_for (fw_min s) fw in
  let max := bound_for (fw_max s) fw in
  let older_max := ∃ v, max = Some v ∧ v ≠ "" ∧ versionCompare v fw < 0 in
  let report := getUnavailableCapabilities f coins (before ++ s :: after) in
  (older_max → report !! m = Some TrezorConnectOutdated)
  ∧ (¬ older_max → min = Some "0" → report !! m = Some NoSupport)
  ∧ (¬ older_max →
     (∃ v, min = Some v ∧ v ≠ "" ∧ v ≠ "0" ∧ versionCompare v fw > 0) →
     report !! m = Some UpdateRequired)
  ∧ report !! "__proto__" = None.
Proof.
  intros Hcaps Hnames Hm Hproto Hafter fw min max older_max report.
  assert (report !! m =
          if max_applies max fw then Some TrezorConnectOutdated
          else if min_applies min fw then
            Some (if bool_decide (min = Some "0") then NoSupport else UpdateRequired)
          else foldl (check_firmware_range fw) (coin_stages f capabilities0 coins) before !! m)
    as ->.
  { subst report. unfold getUnavailableCapabilities. rewrite Hcaps.
    fold (firmware_version f). fold fw.
    rewrite foldl_app. simpl. rewrite check_firmware_range_unwritten by done.
    exact (check_firmware_range_lookup fw _ s names m Hnames Hm Hproto). }
  assert (max_applies max fw = true ↔ older_max) as Hmax.
  { unfold max_applies, older_max. destruct max as [v|].
    - rewrite andb_true_iff, Z.ltb_lt. split.
      + intros [Hv Hc]. exists v. by destruct v.
      + intros (v' & [= <-] & Hv & Hc). by destruct v.
    - split; [done|]. by intros (v' & ? & _). }
  split; [|split; [|split]].
  - intros Ho. apply Hmax in Ho. by rewrite Ho.
  - intros Ho Hmin. destruct (max_applies max fw); [by destruct Ho; apply Hmax|].
    rewrite Hmin. reflexivity.
  - intros Ho (v & Hmin & Hv & Hv0 & Hc).
    destruct (max_applies max fw); [by destruct Ho; apply Hmax|].
    rewrite Hmin. simpl.
    assert ((versionCompare v fw >? 0) = true) as -> by (apply Z.gtb_lt; lia).
    rewrite orb_true_r, andb_true_r.
    destruct v; [done|]. simpl.
    rewrite bool_decide_eq_false_2; [done|]. congruence.
  - apply getUnavailableCapabilities_lookup_proto.
Qed.

Lemma getUnavailableCapabilities_firmware_range_witness :
  (let f := mkFeatures None 1 5 0 (Some ["Capability_Bitcoin"]) None in
   let s := mkSupportedFirmware (Some ["replaceTransaction"; "decreaseOutput"])
                                (Some ["1.9.4"; "2.3.5"]) None in
   let later := mkSupportedFirmware (Some ["decreaseOutput"]) None (Some ["1.9.9"]) in
   capabilities f = Some ["Capability_Bitcoin"]
   ∧ fw_capabilities s = Some ["replaceTransaction"; "decreaseOutput"]
   ∧ "decreaseOutput" ∈ ["replaceTransaction"; "decreaseOutput"]
   ∧ "decreaseOutput" ≠ "__proto__"
   ∧ unwritten_by (firmware_version f) [later] "decreaseOutput"
   ∧ getUnavailableCapabilities f [] ([] ++ s :: [later]) !! "decreaseOutput"
     = Some UpdateRequired).
Proof.
  assert (unwritten_by
            (firmware_version (mkFeatures None 1 5 0 (Some ["Capability_Bitcoin"]) None))
            [mkSupportedFirmware (Some ["decreaseOutput"]) None (Some ["1.9.9"])]
            "decreaseOutput") as Hafter.
  { intros s names ->%list_elem_of_singleton _ _. reflexivity. }
  assert ("decreaseOutput" ≠ "__proto__") as Hproto by discriminate.
  split; [reflexivity|]. split; [reflexivity|]. split; [right; left|].
  split; [exact Hproto|]. split; [exact Hafter|].
  destruct (getUnavailableCapabilities_firmware_range
              (mkFeatures None 1 5 0 (Some ["Capability_Bitcoin"]) None)
              ["Capability_Bitcoin"] [] []
              [mkSupportedFirmware (Some ["decreaseOutput"]) None (Some ["1.9.9"])]
              (mkSupportedFirmware (Some ["replaceTransaction"; "decreaseOutput"])
                                   (Some ["1.9.4"; "2.3.5"]) None)
              ["replaceTransaction"; "decreaseOutput"] "decreaseOutput"
              eq_refl eq_refl (list_elem_of_further _ _ _ (list_elem_of_here _ _))
              Hproto Hafter)
    as (_ & _ & Hupdate & _).
  apply Hupdate.
  - intros (v & Hv & _). discriminate Hv.
  - exists "1.9.4". repeat split; discriminate.
Defined.

(** C3 does not hold for every device and every table.  When the features
    have no [capabilities] field nothing is reported, whatever the bounds
    of the entry; when the minimum is "0" while the maximum compares older
    than the firmware, the second write of the callback replaces
    'no-support' by 'trezor-connect-outdated'; a later entry that lists the
    same name replaces what an earlier entry wrote; and under the name
    "__proto__" the writes create no property. *)
Lemma getUnavailableCapabilities_firmware_range_not_reported :
  let s := mkSupportedFirmware (Some ["Capability_X"]) (Some ["0"]) (Some ["1.0.0"]) in
  let s1 := mkSupportedFirmware (Some ["Capability_X"]) (Some ["0"]) None in
  let s2 := mkSupportedFirmware (Some ["Capability_X"]) (Some ["1.9.4"]) None in
  let s3 := mkSupportedFirmware (Some ["__proto__"; "Capability_Y"]) (Some ["0"]) None in
  let f := mkFeatures None 1 5 0 None None in
  let f' := mkFeatures None 1 5 0 (Some []) None in
  bound_for (fw_min s) (firmware_version f) = Some "0"
  ∧ getUnavailableCapabilities f [] [s] !! "Capability_X" = None
  ∧ getUnavailableCapabilities f' [] [s] !! "Capability_X" = Some TrezorConnectOutdated
  ∧ bound_for (fw_min s1) (firmware_version f') = Some "0"
  ∧ getUnavailableCapabilities f' [] [s1; s2] !! "Capability_X" = Some UpdateRequired
  ∧ bound_for (fw_min s3) (firmware_version f') = Some "0"
  ∧ getUnavailableCapabilities f' [] [s3] = {[ "Capability_Y" := NoSupport ]}.
Proof. vm_compute. repeat split. Qed.

(** ** [parseRevision] *)

Lemma hex_encode_cons (c : ascii) (r : string) :
  hex_encode (String c r) =
  String (hex_digit (N_of_ascii c / 16))
         (String (hex_digit (N_of_ascii c mod 16)) (hex_encode r)).
Proof. reflexivity. Qed.

(** The two digits that encode a hexadecimal digit are decimal digits: the
    codes of 0-9, A-F and a-f are 0x30-0x39, 0x41-0x46 and 0x61-0x66. *)
Lemma hex_digit_of_hex_digit (c : ascii) :
  is_hex_digit c = true →
  let hi := hex_digit (N_of_ascii c / 16) in
  let lo := hex_digit (N_of_ascii c mod 16) in
  hex_value hi = Some (N_of_ascii c / 16)%N
  ∧ hex_value lo = Some (N_of_ascii c mod 16)%N
  ∧ is_af hi = false ∧ is_af lo = false
  ∧ is_line_terminator hi = false ∧ is_line_terminator lo = false.
Proof.
  destruct c as [[] [] [] [] [] [] [] []]; intros H; vm_compute in H;
    try discriminate H; vm_compute; repeat split.
Qed.

Lemma Buffer_from_hex_encode (c : ascii) (r : string) :
  is_hex_digit c = true →
  Buffer_from_hex (hex_encode (String c r)) = N_of_ascii c :: Buffer_from_hex (hex_encode r).
Proof.
  intros Hc. rewrite hex_encode_cons.
  destruct (hex_digit_of_hex_digit c Hc) as (Hhi & Hlo & _).
  cbn [Buffer_from_hex]. rewrite Hhi, Hlo. f_equal.
  symmetry. apply N.div_mod. discriminate.
Qed.

Lemma decode_hex_encode (r : string) :
  all_hex_digits r = true →
  Buffer_toString_utf8 (Buffer_from_hex (hex_encode r)) = r.
Proof.
  induction r as [|c r IH]; [reflexivity|].
  cbn [all_hex_digits]. intros [Hc Hr]%andb_true_iff.
  rewrite Buffer_from_hex_encode by done.
  unfold Buffer_toString_utf8 in *. cbn [map string_of_list_ascii].
  rewrite IH by done. by rewrite ascii_N_embedding.
Qed.

Lemma hex_encode_not_standard (r : string) :
  all_hex_digits r = true → is_standard_notation (hex_encode r) = false.
Proof.
  intros Hr. unfold is_standard_notation.
  assert (lookahead_af (hex_encode r) = false) as ->; [|reflexivity].
  induction r as [|c r IH]; [reflexivity|].
  cbn [all_hex_digits] in Hr. apply andb_true_iff in Hr as [Hc Hr].
  rewrite hex_encode_cons.
  destruct (hex_digit_of_hex_digit c Hc) as (_ & _ & Hhi & Hlo & Thi & Tlo).
  cbn [lookahead_af]. rewrite Hhi, Hlo, Thi, Tlo. by apply IH.
Qed.

(** C8. For a revision [r] made of hexadecimal digits, one of them a letter
    a-f, [parseRevision] maps the hexadecimal encoding of the bytes of [r]
    back to [r]. *)
Theorem parseRevision_hex_encode {C} (f : Features C) (r : string) :
  all_hex_digits r = true →
  has_af r = true →
  revision f = Some (hex_encode r) →
  parseRevision f = Some r.
Proof.
  intros Hhex Haf Hrev. unfold parseRevision. rewrite Hrev.
  assert (truthy_string (hex_encode r) = true) as ->.
  { destruct r; [discriminate Haf|reflexivity]. }
  simpl. rewrite hex_encode_not_standard, decode_hex_encode by done.
  by rewrite Hhex.
Qed.

Lemma parseRevision_hex_encode_witness :
  (let f := mkFeatures (C := Z) None 2 3 0 None (Some "6466303936336563") in
   all_hex_digits "df0963ec" = true
   ∧ has_af "df0963ec" = true
   ∧ revision f = Some (hex_encode "df0963ec")
   ∧ parseRevision f = Some "df0963ec").
Proof.
  split; [reflexivity|]. split; [reflexivity|]. split; [reflexivity|].
  apply (parseRevision_hex_encode
           (mkFeatures (C := Z) None 2 3 0 None (Some "6466303936336563"))
           "df0963ec"); reflexivity.
Defined.

(** ** [gatherWitnessPaths] *)

(** *** [JSON.stringify] tells paths apart *)

Lemma pretty_N_go_no_delimiter (x : N) (s : string) :
  no_delimiter s = true → no_delimiter (pretty_N_go x s) = true.
Proof.
  revert s. induction (N.lt_wf_0 x) as [x _ IH]; intros s Hs.
  destruct (decide (0 < x)%N) as [Hx|Hx].
  - rewrite pretty_N_go_step by done. apply IH; [by apply N.div_lt|].
    cbn [no_delimiter]. rewrite Hs, andb_true_r.
    unfold pretty_N_char. by repeat case_match.
  - assert (x = 0%N) as -> by lia. by rewrite pretty_N_go_0.
Qed.

Lemma pretty_N_go_nonempty (x : N) (s : string) :
  s ≠ "" → pretty_N_go x s ≠ "".
Proof.
  revert s. induction (N.lt_wf_0 x) as [x _ IH]; intros s Hs.
  destruct (decide (0 < x)%N) as [Hx|Hx].
  - rewrite pretty_N_go_step by done. apply IH; [by apply N.div_lt|done].
  - assert (x = 0%N) as -> by lia. by rewrite pretty_N_go_0.
Qed.

Lemma pretty_N_token (x : N) :
  no_delimiter (pretty x) = true ∧ pretty x ≠ "".
Proof.
  unfold pretty, pretty_N. case_decide as Hx; [done|]. split.
  - by apply pretty_N_go_no_delimiter.
  - rewrite pretty_N_go_step by lia. by apply pretty_N_go_nonempty.
Qed.

Lemma pretty_Z_token (x : Z) :
  no_delimiter (pretty x) = true ∧ pretty x ≠ "".
Proof.
  destruct x as [|p|p]; [done| |].
  - apply (pretty_N_token (Npos p)).
  - destruct (pretty_N_token (Npos p)) as [Hd _]. split; [|done].
    change (pretty (Z.neg p)) with ("-" +:+ pretty (Npos p)). exact Hd.
Qed.

(** A string is cut in one way only at its first delimiter. *)
Lemma first_delimiter_unique (s1 s2 : string) (d1 d2 : ascii) (r1 r2 : string) :
  no_delimiter s1 = true → no_delimiter s2 = true →
  is_delimiter d1 = true → is_delimiter d2 = true →
  s1 +:+ String d1 r1 = s2 +:+ String d2 r2 →
  s1 = s2 ∧ d1 = d2 ∧ r1 = r2.
Proof.
  revert s2. induction s1 as [|c1 s1 IH]; intros [|c2 s2]; cbn [no_delimiter];
    intros H1 H2 Hd1 Hd2 Heq; simpl in Heq.
  - by injection Heq as -> ->.
  - injection Heq as -> _. apply andb_true_iff in H2 as [H2 _].
    by rewrite Hd1 in H2.
  - injection Heq as -> _. apply andb_true_iff in H1 as [H1 _].
    by rewrite Hd2 in H1.
  - injection Heq as -> Heq.
    apply andb_true_iff in H1 as [_ H1]. apply andb_true_iff in H2 as [_ H2].
    destruct (IH s2 H1 H2 Hd1 Hd2 Heq) as (-> & -> & ->). done.
Qed.

(** After its first numeral, [JSON_elements] goes on with a delimiter. *)
Lemma JSON_elements_cons (x : Z) (path : Path) :
  ∃ d rest, JSON_elements (x :: path) = pretty x +:+ String d rest
            ∧ is_delimiter d = true
            ∧ ((d = "]"%char ∧ rest = "" ∧ path = [])
               ∨ (d = ","%char ∧ rest = JSON_elements path ∧ path ≠ [])).
Proof.
  destruct path as [|y path].
  - exists "]"%char, "". split; [done|]. split; [done|]. by left.
  - exists ","%char, (JSON_elements (y :: path)). split; [done|]. split; [done|].
    by right.
Qed.

Lemma JSON_elements_inj (p1 p2 : Path) :
  JSON_elements p1 = JSON_elements p2 → p1 = p2.
Proof.
  revert p2. induction p1 as [|x1 p1 IH]; intros [|x2 p2] Heq.
  - done.
  - destruct (JSON_elements_cons x2 p2) as (d & rest & Hj & _).
    rewrite Hj in Heq. destruct (pretty_Z_token x2) as [Ht Hne].
    destruct (pretty x2) as [|c s]; [done|]. simpl in Heq.
    injection Heq as <- _. done.
  - destruct (JSON_elements_cons x1 p1) as (d & rest & Hj & _).
    rewrite Hj in Heq. destruct (pretty_Z_token x1) as [Ht Hne].
    destruct (pretty x1) as [|c s]; [done|]. simpl in Heq.
    injection Heq as -> _. done.
  - destruct (JSON_elements_cons x1 p1) as (d1 & rest1 & Hj1 & Hd1 & Hc1).
    destruct (JSON_elements_cons x2 p2) as (d2 & rest2 & Hj2 & Hd2 & Hc2).
    rewrite Hj1, Hj2 in Heq.
    apply first_delimiter_unique in Heq as (Hx & Hd & Hrest);
      [|apply pretty_Z_token..|done|done].
    apply (inj pretty) in Hx as ->. f_equal.
    destruct Hc1 as [(-> & -> & ->)|(-> & -> & Hp1)],
             Hc2 as [(-> & -> & ->)|(-> & -> & Hp2)]; try done.
    by apply IH.
Qed.

Lemma JSON_stringify_inj (path1 path2 : option Path) :
  JSON_stringify path1 = JSON_stringify path2 → path1 = path2.
Proof.
  destruct path1 as [p1|], path2 as [p2|]; simpl; intros Heq; try done.
  injection Heq as Heq. f_equal. by apply JSON_elements_inj.
Qed.

(** *** Lists without repetitions *)

Section dedup_first.
Context {A : Type} `{EqDecision A}.
Implicit Types (l : list A) (x : A).

Lemma dedup_first_elem_of l x : x ∈ dedup_first l ↔ x ∈ l.
Proof.
  induction l as [|y l IH]; [done|]. cbn [dedup_first].
  rewrite !elem_of_cons, list_elem_of_filter, IH.
  destruct (decide (x = y)); tauto.
Qed.

Lemma dedup_first_NoDup l : NoDup (dedup_first l).
Proof.
  induction l as [|y l IH]; cbn [dedup_first]; [constructor|].
  apply NoDup_cons. split.
  - rewrite list_elem_of_filter. by intros [? _].
  - by apply NoDup_filter.
Qed.

Lemma dedup_first_filter (P : A → Prop) `{!∀ x, Decision (P x)} l :
  dedup_first (filter P l) = filter P (dedup_first l).
Proof.
  induction l as [|y l IH]; [done|]. cbn [dedup_first].
  destruct (decide (P y)) as [Hy|Hy].
  - rewrite !filter_cons_True by done. cbn [dedup_first].
    rewrite IH, !list_filter_filter. f_equal. apply list_filter_iff. tauto.
  - rewrite !filter_cons_False by done.
    rewrite IH, list_filter_filter. apply list_filter_iff.
    intros z. split; [|tauto]. intros Hz. split; [done|]. by intros ->.
Qed.

(** A repetition does not change the result. *)
Lemma dedup_first_repeated l1 l2 x :
  x ∈ l1 → dedup_first (l1 ++ x :: l2) = dedup_first (l1 ++ l2).
Proof.
  induction l1 as [|y l1 IH]; intros Hx; [by apply elem_of_nil in Hx|].
  cbn [app dedup_first]. f_equal.
  destruct (decide (x = y)) as [->|Hxy].
  - rewrite <- !dedup_first_filter. f_equal.
    rewrite !filter_app, filter_cons_False; [done|]. by intros ?.
  - apply elem_of_cons in Hx as [?|Hx]; [done|]. by rewrite IH.
Qed.

Lemma dedup_first_id l : NoDup l → dedup_first l = l.
Proof.
  induction 1 as [|y l Hy Hl IH]; [done|]. cbn [dedup_first]. rewrite IH. f_equal.
  clear -Hy. induction l as [|z l IH]; [done|].
  apply not_elem_of_cons in Hy as [Hz Hy].
  rewrite filter_cons_True by done. by rewrite IH.
Qed.
End dedup_first.

(** *** The map [witnessPaths] *)

(** [_insert] leaves the map alone when the path is there already, and
    appends the path otherwise: equal keys come from equal paths. *)
Lemma _insert_entries_of (path : option Path) (paths : list (option Path)) :
  _insert path (entries_of paths) =
  entries_of (if decide (path ∈ paths) then paths else paths ++ [path]).
Proof.
  unfold _insert. induction paths as [|q paths IH]; [done|].
  cbn [entries_of map Map_set]. destruct (decide (JSON_stringify path = JSON_stringify q)) as [Hk|Hk].
  - apply JSON_stringify_inj in Hk as ->.
    rewrite decide_True by left. done.
  - assert (path ≠ q) as Hne by (by intros ->).
    fold (entries_of paths). rewrite IH.
    destruct (decide (path ∈ paths)) as [Hin|Hin].
    + rewrite decide_True by (by right). done.
    + rewrite decide_False; [done|]. by apply not_elem_of_cons.
Qed.

Lemma Map_values_entries_of (paths : list (option Path)) :
  Map_values (entries_of paths) = paths.
Proof.
  unfold Map_values, entries_of. rewrite map_map. apply map_id.
Qed.

Lemma insert_all_cons (p : option Path) (ps : list (option Path))
    (witnessPaths : WitnessPaths) :
  insert_all (p :: ps) witnessPaths = insert_all ps (_insert p witnessPaths).
Proof. reflexivity. Qed.

Lemma insert_all_entries_of (new old : list (option Path)) :
  NoDup old →
  insert_all new (entries_of old) = entries_of (dedup_first (old ++ new)).
Proof.
  revert old. induction new as [|p new IH]; intros old Hold.
  - by rewrite app_nil_r, dedup_first_id.
  - rewrite insert_all_cons, _insert_entries_of. destruct (decide (p ∈ old)) as [Hin|Hin].
    + rewrite IH by done. by rewrite dedup_first_repeated.
    + rewrite IH.
      * by rewrite <- app_assoc.
      * apply NoDup_app. split; [done|]. split; [|apply NoDup_singleton].
        intros x Hx ->%list_elem_of_singleton. done.
Qed.

Lemma insert_all_app (ps qs : list (option Path)) (witnessPaths : WitnessPaths) :
  insert_all (ps ++ qs) witnessPaths = insert_all qs (insert_all ps witnessPaths).
Proof. apply foldl_app. Qed.

(** The three loops of [gatherWitnessPaths] call [_insert] on the paths of
    [inserted_paths], in that order. *)
Lemma insert_if_present_fold {X} (get : X → option Path) (xs : list X)
    (witnessPaths : WitnessPaths) :
  foldl (λ wp x, insert_if_present (get x) wp) witnessPaths xs
  = insert_all (filter (λ p, is_Some p) (map get xs)) witnessPaths.
Proof.
  revert witnessPaths. induction xs as [|x xs IH]; intros witnessPaths; [done|].
  cbn [foldl map]. rewrite IH. destruct (get x) as [p|] eqn:Hx.
  - rewrite filter_cons_True by eauto. done.
  - rewrite filter_cons_False by (by intros [? ?]). done.
Qed.

Lemma insert_certificate_eq (witnessPaths : WitnessPaths)
    (c : CertificateWithPoolOwnersAndRelays) :
  insert_certificate witnessPaths c
  = insert_all (declared_path c ++ pool_owner_paths c) witnessPaths.
Proof.
  unfold insert_certificate. rewrite insert_if_present_fold, insert_all_app.
  fold (pool_owner_paths c). f_equal. unfold declared_path.
  destruct (certificate_path (certificate c)); [|done].
  by destruct (is_stake_certificate _).
Qed.

Lemma gatherWitnessPaths_insert_all (inputs : list InputWithPath)
    (certificates : list CertificateWithPoolOwnersAndRelays)
    (withdrawals : list CardanoTxWithdrawal) :
  gatherWitnessPaths inputs certificates withdrawals
  = Map_values (insert_all (inserted_paths inputs certificates withdrawals) []).
Proof.
  unfold gatherWitnessPaths, inserted_paths. f_equal.
  rewrite !insert_all_app, insert_if_present_fold. fold (input_paths inputs).
  generalize (insert_all (input_paths inputs) []). intros wp.
  assert (foldl insert_certificate wp certificates
          = insert_all (concat (map (λ c, declared_path c ++ pool_owner_paths c)
                                    certificates)) wp) as ->.
  { revert wp. induction certificates as [|c cs IH]; intros wp; [done|].
    cbn [foldl map concat]. rewrite IH, insert_certificate_eq, !insert_all_app. done. }
  generalize (insert_all (concat (map (λ c, declared_path c ++ pool_owner_paths c)
                                      certificates)) wp).
  intros wp'. unfold insert_all. revert wp'.
  induction withdrawals as [|w ws IH]; intros wp'; [done|].
  cbn [foldl map]. by rewrite IH.
Qed.

(** [gatherWitnessPaths] returns the inserted paths without their
    repetitions. *)
Lemma gatherWitnessPaths_dedup (inputs : list InputWithPath)
    (certificates : list CertificateWithPoolOwnersAndRelays)
    (withdrawals : list CardanoTxWithdrawal) :
  gatherWitnessPaths inputs certificates withdrawals
  = dedup_first (inserted_paths inputs certificates withdrawals).
Proof.
  rewrite gatherWitnessPaths_insert_all.
  change (@nil (option string * option Path)) with (entries_of []).
  rewrite insert_all_entries_of by constructor.
  apply Map_values_entries_of.
Qed.

(** C9, as the code has it.  [gatherWitnessPaths] returns the inserted
    paths without repetitions, a path standing where it was inserted first;
    two paths are the same when they are equal as values.  The paths are
    inserted in this order: the paths of the inputs; then, certificate by
    certificate, the declared path of the certificate (when it is a stake
    delegation or a stake deregistration) followed by the staking-key paths
    of the pool owners of that same certificate; then the path of every
    withdrawal. *)
Theorem gatherWitnessPaths_deduplicated (inputs : list InputWithPath)
    (certificates : list CertificateWithPoolOwnersAndRelays)
    (withdrawals : list CardanoTxWithdrawal) :
  gatherWitnessPaths inputs certificates withdrawals
  = dedup_first (inserted_paths inputs certificates withdrawals)
  ∧ NoDup (gatherWitnessPaths inputs certificates withdrawals)
  ∧ ∀ path, path ∈ gatherWitnessPaths inputs certificates withdrawals
            ↔ path ∈ inserted_paths inputs certificates withdrawals.
Proof.
  rewrite gatherWitnessPaths_dedup. split; [done|]. split.
  - apply dedup_first_NoDup.
  - intros path. apply dedup_first_elem_of.
Qed.

Example example_same_path_twice :
  gatherWitnessPaths [mkInput (Some [0; 1; 2]); mkInput (Some [0; 1; 2])] [] []
  = [Some [0; 1; 2]].
Proof. reflexivity. Qed.

(** C9 does not hold with the insertion order of the specification, which
    puts the declared paths of all certificates before the pool-owner paths
    of all certificates: a pool registration with an owner, followed by a
    stake delegation, gives the owner's path first. *)
Lemma gatherWitnessPaths_certificate_order :
  let registration :=
    mkCertificateWithPoolOwners (mkCertificate (OTHER_CERTIFICATE 3) None)
                                [mkPoolOwner (Some [1852; 1815; 0; 2; 0])] in
  let delegation :=
    mkCertificateWithPoolOwners (mkCertificate STAKE_DELEGATION (Some [1852; 1815; 1; 2; 0]))
                                [] in
  gatherWitnessPaths [] [registration; delegation] []
  = [Some [1852; 1815; 0; 2; 0]; Some [1852; 1815; 1; 2; 0]]
  ∧ dedup_first (spec_inserted_paths [] [registration; delegation] [])
    = [Some [1852; 1815; 1; 2; 0]; Some [1852; 1815; 0; 2; 0]].
Proof. split; reflexivity. Qed.




Example example_absent_paths :
  gatherWitnessPaths [mkInput None; mkInput (Some [0; 1])] []
                     [mkWithdrawal (Some [2]); mkWithdrawal None; mkWithdrawal None]
  = [Some [0; 1]; Some [2]; None].
Proof. reflexivity. Qed.

(** * Further properties *)

(** ** [parseCapabilities] *)

(** X1. With firmware present, no capability codes and a major version
    other than 1, [parseCapabilities] returns the entries 1 to 7 and 9 to 14
    of the table, in that order: every entry but Lisk, Shamir, ShamirGroups
    and PassphraseEntry. *)
Theorem parseCapabilities_default_TT (f : Features Z) :
  firmware_present f ≠ Some false →
  capabilities f = None ∨ capabilities f = Some [] →
  major_version f ≠ 1 →
  Forall2 (λ i name, CAPABILITIES !! (i - 1)%nat = Some name)
          [1; 2; 3; 4; 5; 6; 7; 9; 10; 11; 12; 13; 14]%nat (parseCapabilities (Some f))
  ∧ parseCapabilities (Some f) =
    [ "Capability_Bitcoin"; "Capability_Bitcoin_like"; "Capability_Binance";
      "Capability_Cardano"; "Capability_Crypto"; "Capability_EOS";
      "Capability_Ethereum"; "Capability_Monero"; "Capability_NEM";
      "Capability_Ripple"; "Capability_Stellar"; "Capability_Tezos";
      "Capability_U2F" ].
Proof.
  intros Hfw Hcaps Hmajor.
  assert (parseCapabilities (Some f) = flatMap capability_filter DEFAULT_CAPABILITIES_TT) as ->.
  { unfold parseCapabilities. rewrite bool_decide_eq_false_2 by done.
    apply Z.eqb_neq in Hmajor.
    destruct Hcaps as [-> | ->]; simpl; rewrite Hmajor; reflexivity. }
  split; [|reflexivity].
  repeat constructor.
Qed.

Lemma parseCapabilities_default_TT_witness :
  (let f := mkFeatures None 2 0 8 None None in
   firmware_present f ≠ Some false
   ∧ (capabilities f = None ∨ capabilities f = Some [])
   ∧ major_version f ≠ 1
   ∧ length (parseCapabilities (Some f)) = 13%nat).
Proof.
  split; [discriminate|]. split; [left; reflexivity|]. split; [discriminate|].
  destruct (parseCapabilities_default_TT (mkFeatures None 2 0 8 None None))
    as [_ ->]; [discriminate | left; reflexivity | discriminate | reflexivity].
Defined.

Lemma capability_filter_length (c : Z) :
  length (capability_filter c) = if known_code c then 1%nat else 0%nat.
Proof.
  unfold known_code.
  destruct (Z.leb_spec 1 c), (Z.leb_spec c 17); simpl.
  - destruct (capability_filter_in_range c) as (name & _ & ->); [lia|done].
  - rewrite capability_filter_out_of_range by lia. done.
  - rewrite capability_filter_out_of_range by lia. done.
  - rewrite capability_filter_out_of_range by lia. done.
Qed.

Lemma flatMap_capability_filter_length (codes : list Z) :
  length (flatMap capability_filter codes)
  = length (filter (λ c, known_code c = true) codes).
Proof.
  unfold flatMap. induction codes as [|c codes IH]; [done|].
  cbn [map concat]. rewrite length_app, capability_filter_length, IH, filter_cons.
  destruct (known_code c); [rewrite decide_True by done|rewrite decide_False by done];
    done.
Qed.

(** X2. When the device reports capability codes, the result has one entry
    per code from 1 to 17, repetitions included; when none of the codes is in
    that range the result is empty, not the default of the model. *)
Theorem parseCapabilities_known_codes (f : Features Z) (codes : list Z) :
  firmware_present f ≠ Some false →
  capabilities f = Some codes →
  codes ≠ [] →
  length (parseCapabilities (Some f))
  = length (filter (λ c, known_code c = true) codes)
  ∧ (Forall (λ c, c ≤ 0 ∨ 17 < c) codes → parseCapabilities (Some f) = []).
Proof.
  intros Hfw Hcaps Hne.
  assert (parseCapabilities (Some f) = flatMap capability_filter codes) as ->.
  { unfold parseCapabilities. rewrite bool_decide_eq_false_2 by done.
    rewrite Hcaps. destruct codes; [done|reflexivity]. }
  split; [apply flatMap_capability_filter_length|].
  intros Hall. apply length_zero_iff_nil.
  rewrite flatMap_capability_filter_length.
  clear -Hall. induction Hall as [|c codes Hc _ IH]; [done|].
  rewrite filter_cons_False; [done|].
  unfold known_code. intros [? ?]%andb_true_iff. lia.
Qed.

Lemma parseCapabilities_known_codes_witness :
  (let f := mkFeatures (Some true) 1 9 0 (Some [0; 18; -1; 255]) None in
   firmware_present f ≠ Some false
   ∧ capabilities f = Some [0; 18; -1; 255]
   ∧ [0; 18; -1; 255] ≠ []
   ∧ Forall (λ c, c ≤ 0 ∨ 17 < c) [0; 18; -1; 255]
   ∧ parseCapabilities (Some f) = []).
Proof.
  assert (Forall (λ c, c ≤ 0 ∨ 17 < c) [0; 18; -1; 255]) as Hall.
  { repeat constructor; lia. }
  split; [discriminate|]. split; [reflexivity|]. split; [discriminate|].
  split; [exact Hall|].
  destruct (parseCapabilities_known_codes
              (mkFeatures (Some true) 1 9 0 (Some [0; 18; -1; 255]) None)
              [0; 18; -1; 255]) as [_ Hempty];
    [discriminate | reflexivity | discriminate | exact (Hempty Hall)].
Defined.

(** ** [getUnavailableCapabilities] *)

Lemma mark_lookup {A} (key_of : A → string) (value : Reason) (items : list A)
    (report : UnavailableCapabilities) (k : string) :
  mark key_of value items report !! k
  = if decide (k ≠ "__proto__" ∧ Exists (λ x, key_of x = k) items)
    then Some value else report !! k.
Proof.
  destruct (decide (k = "__proto__")) as [->|Hproto].
  - rewrite decide_False by (by intros [? _]). apply mark_lookup_proto.
  - destruct (decide (Exists (λ x, key_of x = k) items)) as [Hex|Hno].
    + rewrite decide_True by done.
      apply Exists_exists in Hex as (x & Hx & <-). by apply mark_lookup_marked.
    + rewrite decide_False by (by intros [_ ?]).
      apply mark_lookup_other. intros x Hx Hk. apply Hno, Exists_exists. eauto.
Qed.

Lemma mark_Permutation {A} (key_of : A → string) (value : Reason)
    (items items' : list A) (report : UnavailableCapabilities) :
  items ≡ₚ items' →
  mark key_of value items report = mark key_of value items' report.
Proof.
  intros Hperm. apply map_eq. intros k. rewrite !mark_lookup.
  apply decide_ext. rewrite !Exists_exists. by setoid_rewrite Hperm.
Qed.

(** Where a reason under a key comes from: an asset that a stage rejects,
    or an entry of the support table. *)
Lemma getUnavailableCapabilities_lookup_origin (f : Features Capability)
    (coins : list CoinInfo) (support : list SupportedFirmware)
    (k : string) (r : Reason) :
  getUnavailableCapabilities f coins support !! k = Some r →
  ∃ capabilities0, capabilities f = Some capabilities0
    ∧ ((∃ info, info ∈ coins ∧ coin_key info = k
                ∧ coin_reason (support_key f) (firmware_version f) capabilities0 info
                  = Some r)
       ∨ (∃ s names, s ∈ support ∧ fw_capabilities s = Some names ∧ k ∈ names
                     ∧ entry_reason (firmware_version f) s = Some r)).
Proof.
  intros Hlookup.
  assert (k ≠ "__proto__") as Hproto.
  { intros ->. by rewrite getUnavailableCapabilities_lookup_proto in Hlookup. }
  revert Hlookup. unfold getUnavailableCapabilities.
  destruct (capabilities f) as [capabilities0|]; [|by rewrite lookup_empty].
  fold (firmware_version f). intros Hlookup. exists capabilities0. split; [done|].
  revert Hlookup. induction support as [|s support IH] using rev_ind.
  - simpl. rewrite coin_stages_eq, !mark_lookup, lookup_empty. intros Hlookup. left.
    repeat case_decide; try discriminate; injection Hlookup as <-;
      match goal with
      | H : _ ∧ Exists _ _ |- _ =>
        destruct H as [_ H];
        apply Exists_exists in H as (info & [Hr Hin]%list_elem_of_filter & Hk)
      end; eauto.
  - rewrite foldl_snoc. intros Hlookup.
    assert ((∃ names, fw_capabilities s = Some names ∧ k ∈ names
                      ∧ entry_reason (firmware_version f) s = Some r)
            ∨ foldl (check_firmware_range (firmware_version f))
                    (coin_stages f capabilities0 coins) support !! k = Some r)
      as [(names & Hnames & Hk & Hr)|Hbefore].
    { destruct (fw_capabilities s) as [names|] eqn:Hnames;
        [|unfold check_firmware_range in Hlookup; rewrite Hnames in Hlookup; by right].
      destruct (decide (k ∈ names)) as [Hk|Hk].
      - rewrite (check_firmware_range_lookup _ _ s names k Hnames Hk Hproto) in Hlookup.
        unfold entry_reason.
        destruct (max_applies _ _); [left; eauto|].
        destruct (min_applies _ _); [left; eauto|by right].
      - right. rewrite <- Hlookup. symmetry.
        apply (check_firmware_range_other _ [s]).
        intros s' names' ->%list_elem_of_singleton Hnames'. congruence. }
    + right. exists s, names. rewrite elem_of_app, list_elem_of_singleton. eauto.
    + destruct (IH Hbefore) as [?|(s' & names & Hs' & ?)]; [by left|].
      right. exists s', names. rewrite elem_of_app. eauto.
Qed.

(** X3. Every reason of the report has an origin.  'no-capability' under a
    key means that the catalog holds an asset with that key that has support
    for the model and lacks its capability; 'trezor-connect-outdated' means
    that an entry of the support table lists the key and has a maximum that
    compares older than the firmware; and any reason comes either from an
    asset with that key, rejected by one of the stages 1 to 3, or from an
    entry of the support table that lists the key. *)
Theorem getUnavailableCapabilities_reason_origin (f : Features Capability)
    (coins : list CoinInfo) (support : list SupportedFirmware)
    (k : string) (r : Reason) :
  getUnavailableCapabilities f coins support !! k = Some r →
  (∃ capabilities0, capabilities f = Some capabilities0
     ∧ ((∃ info, info ∈ coins ∧ coin_key info = k
                 ∧ coin_reason (support_key f) (firmware_version f) capabilities0 info
                   = Some r)
        ∨ (∃ s names, s ∈ support ∧ fw_capabilities s = Some names ∧ k ∈ names
                      ∧ entry_reason (firmware_version f) s = Some r)))
  ∧ (r = NoCapability →
     ∃ capabilities0 info, capabilities f = Some capabilities0
       ∧ info ∈ coins ∧ coin_key info = k
       ∧ no_support (support_key f) info = false
       ∧ lacks_capability capabilities0 info = true)
  ∧ (r = TrezorConnectOutdated →
     ∃ s names, s ∈ support ∧ fw_capabilities s = Some names ∧ k ∈ names
       ∧ max_applies (bound_for (fw_max s) (firmware_version f)) (firmware_version f)
         = true).
Proof.
  intros Hlookup.
  destruct (getUnavailableCapabilities_lookup_origin f coins support k r Hlookup)
    as (capabilities0 & Hcaps & Horigin).
  split; [eauto|]. split.
  - intros ->. exists capabilities0.
    destruct Horigin as [(info & Hin & Hk & Hr)|(s & names & _ & _ & _ & Hr)].
    + exists info. unfold coin_reason in Hr.
      destruct (no_support _ info); [discriminate|].
      destruct (lacks_capability _ info); [done|].
      destruct (needs_update _ _ info); discriminate.
    + unfold entry_reason in Hr. repeat case_match; discriminate.
  - intros ->.
    destruct Horigin as [(info & _ & _ & Hr)|(s & names & Hs & Hnames & Hk & Hr)].
    + unfold coin_reason in Hr. repeat case_match; discriminate.
    + exists s, names. unfold entry_reason in Hr.
      destruct (max_applies _ _); [done|]. repeat case_match; discriminate.
Qed.

Lemma getUnavailableCapabilities_reason_origin_witness :
  (let f := mkFeatures None 2 0 0 (Some ["Capability_Ethereum"]) None in
   let btc := mkCoinInfo "BTC" "Bitcoin" "bitcoin"
                         (Some {[ "trezor2" := SupportVersion "2.0.0" ]}) in
   getUnavailableCapabilities f [btc] [] !! "btc" = Some NoCapability
   ∧ ∃ capabilities0 info, capabilities f = Some capabilities0
       ∧ info ∈ [btc] ∧ coin_key info = "btc"
       ∧ no_support (support_key f) info = false
       ∧ lacks_capability capabilities0 info = true).
Proof.
  assert (getUnavailableCapabilities
            (mkFeatures None 2 0 0 (Some ["Capability_Ethereum"]) None)
            [mkCoinInfo "BTC" "Bitcoin" "bitcoin"
                        (Some {[ "trezor2" := SupportVersion "2.0.0" ]})]
            [] !! "btc" = Some NoCapability) as Hlookup by reflexivity.
  split; [exact Hlookup|].
  destruct (getUnavailableCapabilities_reason_origin _ _ _ _ _ Hlookup) as (_ & Hnc & _).
  exact (Hnc eq_refl).
Defined.

(** X4. The report does not depend on the order of the catalog: two
    catalogs with the same assets, in any order, give the same report. *)
Theorem getUnavailableCapabilities_catalog_order (f : Features Capability)
    (coins coins' : list CoinInfo) (support : list SupportedFirmware) :
  coins ≡ₚ coins' →
  getUnavailableCapabilities f coins support
  = getUnavailableCapabilities f coins' support.
Proof.
  intros Hperm. unfold getUnavailableCapabilities.
  destruct (capabilities f) as [capabilities0|]; [|done].
  f_equal. rewrite !coin_stages_eq. cbv zeta.
  set (reason := coin_reason (support_key f) (firmware_version f) capabilities0).
  rewrite (mark_Permutation coin_key UpdateRequired
             (filter (λ info, reason info = Some UpdateRequired) coins)
             (filter (λ info, reason info = Some UpdateRequired) coins'))
    by (by rewrite Hperm).
  rewrite (mark_Permutation coin_key NoCapability
             (filter (λ info, reason info = Some NoCapability) coins)
             (filter (λ info, reason info = Some NoCapability) coins'))
    by (by rewrite Hperm).
  rewrite (mark_Permutation coin_key NoSupport
             (filter (λ info, reason info = Some NoSupport) coins)
             (filter (λ info, reason info = Some NoSupport) coins'))
    by (by rewrite Hperm).
  done.
Qed.

Lemma getUnavailableCapabilities_catalog_order_witness :
  (let f := mkFeatures None 2 0 0 (Some ["Capability_Bitcoin"]) None in
   let btc := mkCoinInfo "BTC" "Bitcoin" "bitcoin"
                         (Some {[ "trezor2" := SupportVersion "2.1.0" ]}) in
   let eth := mkCoinInfo "ETH" "Ethereum" "ethereum"
                         (Some {[ "trezor2" := SupportVersion "2.0.0" ]}) in
   let xyz := mkCoinInfo "XYZ" "Xyz" "misc" None in
   [btc; eth; xyz] ≡ₚ [xyz; btc; eth]
   ∧ getUnavailableCapabilities f [btc; eth; xyz] []
     = getUnavailableCapabilities f [xyz; btc; eth] []).
Proof.
  assert ([mkCoinInfo "BTC" "Bitcoin" "bitcoin"
                      (Some {[ "trezor2" := SupportVersion "2.1.0" ]});
           mkCoinInfo "ETH" "Ethereum" "ethereum"
                      (Some {[ "trezor2" := SupportVersion "2.0.0" ]});
           mkCoinInfo "XYZ" "Xyz" "misc" None]
          ≡ₚ [mkCoinInfo "XYZ" "Xyz" "misc" None;
              mkCoinInfo "BTC" "Bitcoin" "bitcoin"
                         (Some {[ "trezor2" := SupportVersion "2.1.0" ]});
              mkCoinInfo "ETH" "Ethereum" "ethereum"
                         (Some {[ "trezor2" := SupportVersion "2.0.0" ]})]) as Hperm.
  { etrans; [apply perm_skip, perm_swap|apply perm_swap]. }
  split; [exact Hperm|].
  exact (getUnavailableCapabilities_catalog_order _ _ _ [] Hperm).
Defined.

Lemma array_get_out_of_bounds {A} (a : list A) (i : Z) :
  i < 0 ∨ Z.of_nat (length a) ≤ i → array_get a i = None.
Proof.
  intros Hi. unfold array_get. destruct (Z.ltb_spec i 0); [done|].
  apply lookup_ge_None_2. lia.
Qed.

(** X5. Stage 4 restricts nothing on a device whose major version has no
    place in the arrays of bounds: when the major version is below 1, or
    beyond the length of every [min] and [max] array of the support table,
    the report is the one of stages 1 to 3. *)
Theorem getUnavailableCapabilities_no_bounds (f : Features Capability)
    (coins : list CoinInfo) (support : list SupportedFirmware) :
  (∀ s a, s ∈ support → fw_min s = Some a ∨ fw_max s = Some a →
          major_version f < 1 ∨ Z.of_nat (length a) < major_version f) →
  getUnavailableCapabilities f coins support
  = getUnavailableCapabilities f coins [].
Proof.
  intros Hbounds. unfold getUnavailableCapabilities.
  destruct (capabilities f) as [capabilities0|]; [|done].
  simpl. generalize (coin_stages f capabilities0 coins). intros report.
  induction support as [|s support IH] using rev_ind; [done|].
  rewrite foldl_snoc, IH.
  - assert (∀ bounds, bounds = fw_min s ∨ bounds = fw_max s →
              bound_for bounds [major_version f; minor_version f; patch_version f] = None)
      as Hnone.
    { intros [a|] Hb; [|done]. simpl. apply array_get_out_of_bounds.
      destruct (Hbounds s a) as [?|?]; [| |lia|lia].
      - apply elem_of_app. right. by apply list_elem_of_singleton.
      - destruct Hb as [->| ->]; eauto. }
    unfold check_firmware_range. destruct (fw_capabilities s); [|done].
    rewrite !Hnone by eauto. done.
  - intros s' a Hs'. apply Hbounds, elem_of_app. by left.
Qed.

Lemma getUnavailableCapabilities_no_bounds_witness :
  (let f := mkFeatures None 3 0 0 (Some ["Capability_Bitcoin"]) None in
   let s := mkSupportedFirmware (Some ["replaceTransaction"])
                                (Some ["1.9.4"; "2.3.5"]) (Some ["1.0.0"; "2.0.0"]) in
   (∀ s' a, s' ∈ [s] → fw_min s' = Some a ∨ fw_max s' = Some a →
            major_version f < 1 ∨ Z.of_nat (length a) < major_version f)
   ∧ getUnavailableCapabilities f [] [s] = getUnavailableCapabilities f [] []).
Proof.
  assert (∀ s' a,
            s' ∈ [mkSupportedFirmware (Some ["replaceTransaction"])
                    (Some ["1.9.4"; "2.3.5"]) (Some ["1.0.0"; "2.0.0"])] →
            fw_min s' = Some a ∨ fw_max s' = Some a →
            major_version (mkFeatures None 3 0 0 (Some ["Capability_Bitcoin"]) None) < 1
            ∨ Z.of_nat (length a)
              < major_version (mkFeatures None 3 0 0 (Some ["Capability_Bitcoin"]) None))
    as Hbounds.
  { intros s' a ->%list_elem_of_singleton [[= <-]|[= <-]]; right; simpl; lia. }
  split; [exact Hbounds|].
  exact (getUnavailableCapabilities_no_bounds _ [] _ Hbounds).
Defined.

Lemma default_capabilities_cover (capabilities0 : list Capability) (info : CoinInfo) :
  capabilities0 = flatMap capability_filter DEFAULT_CAPABILITIES_T1
  ∨ capabilities0 = flatMap capability_filter DEFAULT_CAPABILITIES_TT →
  type info = "bitcoin" ∨ type info = "ethereum" ∨ type info = "nem" →
  lacks_capability capabilities0 info = false.
Proof.
  intros Hcaps Htype. unfold lacks_capability.
  destruct Htype as [-> | [-> | ->]]; simpl;
    destruct Hcaps as [-> | ->]; repeat case_match; reflexivity.
Qed.

(** X6. The capabilities that [parseCapabilities] falls back to, for either
    model, cover Bitcoin, the Bitcoin-like, the Ethereum-like and the NEM
    assets: on a device with firmware that reports no capability codes, a
    catalog of such assets never gets a 'no-capability'. *)
Theorem getUnavailableCapabilities_default_capabilities (raw : Features Z)
    (f : Features Capability) (coins : list CoinInfo)
    (support : list SupportedFirmware) (k : string) :
  firmware_present raw ≠ Some false →
  capabilities raw = None ∨ capabilities raw = Some [] →
  capabilities f = Some (parseCapabilities (Some raw)) →
  (∀ info, info ∈ coins →
           type info = "bitcoin" ∨ type info = "ethereum" ∨ type info = "nem") →
  getUnavailableCapabilities f coins support !! k ≠ Some NoCapability.
Proof.
  intros Hfw Hraw Hcaps Htypes Hlookup.
  assert (parseCapabilities (Some raw) = flatMap capability_filter DEFAULT_CAPABILITIES_T1
          ∨ parseCapabilities (Some raw) = flatMap capability_filter DEFAULT_CAPABILITIES_TT)
    as Hdefault.
  { unfold parseCapabilities. rewrite bool_decide_eq_false_2 by done.
    destruct Hraw as [-> | ->]; simpl; destruct (major_version raw =? 1); eauto. }
  destruct (getUnavailableCapabilities_lookup_origin f coins support k _ Hlookup)
    as (capabilities0 & Hcaps0 & [(info & Hin & _ & Hr)|(s & names & _ & _ & _ & Hr)]).
  - assert (capabilities0 = parseCapabilities (Some raw)) as -> by congruence.
    unfold coin_reason in Hr.
    rewrite (default_capabilities_cover _ info Hdefault (Htypes info Hin)) in Hr.
    repeat case_match; discriminate.
  - unfold entry_reason in Hr. repeat case_match; discriminate.
Qed.

Lemma getUnavailableCapabilities_default_capabilities_witness :
  (let raw := mkFeatures (C := Z) (Some true) 1 8 0 None None in
   let f := with_capabilities raw (Some (parseCapabilities (Some raw))) in
   let coins := [mkCoinInfo "LTC" "Litecoin" "bitcoin"
                            (Some {[ "trezor1" := SupportVersion "1.5.2" ]});
                 mkCoinInfo "ETC" "Ethereum Classic" "ethereum"
                            (Some {[ "trezor1" := SupportVersion "1.9.0" ]})] in
   firmware_present raw ≠ Some false
   ∧ (capabilities raw = None ∨ capabilities raw = Some [])
   ∧ capabilities f = Some (parseCapabilities (Some raw))
   ∧ (∀ info, info ∈ coins →
              type info = "bitcoin" ∨ type info = "ethereum" ∨ type info = "nem")
   ∧ getUnavailableCapabilities f coins [] !! "ltc" ≠ Some NoCapability).
Proof.
  assert (∀ info,
            info ∈ [mkCoinInfo "LTC" "Litecoin" "bitcoin"
                               (Some {[ "trezor1" := SupportVersion "1.5.2" ]});
                    mkCoinInfo "ETC" "Ethereum Classic" "ethereum"
                               (Some {[ "trezor1" := SupportVersion "1.9.0" ]})] →
            type info = "bitcoin" ∨ type info = "ethereum" ∨ type info = "nem")
    as Htypes.
  { intros info [-> | Hinfo]%elem_of_cons;
      [|apply list_elem_of_singleton in Hinfo as ->]; simpl; eauto. }
  split; [discriminate|]. split; [left; reflexivity|]. split; [reflexivity|].
  split; [exact Htypes|].
  apply (getUnavailableCapabilities_default_capabilities
           (mkFeatures (C := Z) (Some true) 1 8 0 None None));
    [discriminate | left; reflexivity | reflexivity | exact Htypes].
Defined.

Lemma lacks_capability_nil (info : CoinInfo) : lacks_capability [] info = true.
Proof. unfold lacks_capability, includes. repeat case_match; reflexivity. Qed.

(** X7. An empty [capabilities] array is not an absent one: with it every
    asset of the catalog whose lower-cased shortcut is not "__proto__" is
    reported, with 'no-support' or with 'no-capability' (under a key that
    stage 4 does not write). *)
Theorem getUnavailableCapabilities_empty_capabilities (f : Features Capability)
    (coins : list CoinInfo) (support : list SupportedFirmware) (info : CoinInfo) :
  capabilities f = Some [] →
  info ∈ coins →
  coin_key info ≠ "__proto__" →
  unwritten_by (firmware_version f) support (coin_key info) →
  getUnavailableCapabilities f coins support !! coin_key info = Some NoSupport
  ∨ getUnavailableCapabilities f coins support !! coin_key info = Some NoCapability.
Proof.
  intros Hcaps Hin Hproto Hk.
  rewrite (getUnavailableCapabilities_lookup_coin f []) by done.
  destruct (coin_stages_lookup f [] coins (coin_key info) Hproto) as (_ & Hnc & Hns & _).
  set (reason := coin_reason (support_key f) (firmware_version f) []) in *.
  assert (∀ i, reason i = Some NoSupport ∨ reason i = Some NoCapability) as Hreason.
  { intros i. unfold reason, coin_reason. rewrite lacks_capability_nil.
    destruct (no_support _ i); eauto. }
  assert (¬ ∃ i, i ∈ coins ∧ coin_key i = coin_key info ∧ reason i = Some UpdateRequired)
    as Hur.
  { intros (i & _ & _ & Hr). destruct (Hreason i) as [Hi|Hi]; congruence. }
  destruct (decide (Exists (λ i, coin_key i = coin_key info ∧ reason i = Some NoCapability)
                           coins)) as [Hex|Hno].
  - right. apply Hnc; [done|]. apply Exists_exists in Hex as (i & ? & ? & ?). eauto.
  - left. assert (¬ ∃ i, i ∈ coins ∧ coin_key i = coin_key info
                         ∧ reason i = Some NoCapability) as Hno'.
    { intros (i & ? & ? & ?). apply Hno, Exists_exists. eauto. }
    apply Hns; [done|done|]. exists info. split; [done|]. split; [done|].
    destruct (Hreason info) as [?|Hr]; [done|]. destruct Hno'. eauto.
Qed.

Lemma getUnavailableCapabilities_empty_capabilities_witness :
  (let f := mkFeatures None 2 4 0 (Some []) None in
   let btc := mkCoinInfo "BTC" "Bitcoin" "bitcoin"
                         (Some {[ "trezor2" := SupportVersion "2.0.0" ]}) in
   capabilities f = Some []
   ∧ btc ∈ [btc]
   ∧ coin_key btc ≠ "__proto__"
   ∧ unwritten_by (firmware_version f) [] (coin_key btc)
   ∧ (getUnavailableCapabilities f [btc] [] !! coin_key btc = Some NoSupport
      ∨ getUnavailableCapabilities f [btc] [] !! coin_key btc = Some NoCapability)).
Proof.
  assert (∀ fw k, unwritten_by fw [] k) as Hk.
  { intros fw k s names Hs. by apply elem_of_nil in Hs. }
  assert (coin_key (mkCoinInfo "BTC" "Bitcoin" "bitcoin"
                               (Some {[ "trezor2" := SupportVersion "2.0.0" ]}))
          ≠ "__proto__") as Hproto by discriminate.
  split; [reflexivity|]. split; [left|]. split; [exact Hproto|]. split; [apply Hk|].
  apply getUnavailableCapabilities_empty_capabilities;
    [reflexivity | left | exact Hproto | apply Hk].
Defined.

(** ** [parseRevision] *)

Lemma lookahead_af_truthy (s : string) :
  lookahead_af s = true → truthy_string s = true.
Proof. by destruct s. Qed.

Lemma hex_digit_not_line_terminator (c : ascii) :
  is_hex_digit c = true → is_line_terminator c = false.
Proof.
  destruct c as [[] [] [] [] [] [] [] []]; intros H; vm_compute in H;
    try discriminate H; reflexivity.
Qed.

Lemma not_hex_digit_no_value (c : ascii) :
  is_hex_digit c = false → hex_value c = None.
Proof.
  destruct c as [[] [] [] [] [] [] [] []]; intros H; vm_compute in H;
    try discriminate H; reflexivity.
Qed.

Lemma lookahead_af_hex_digits (s : string) :
  all_hex_digits s = true → lookahead_af s = has_af s.
Proof.
  induction s as [|c s IH]; [done|]. cbn [all_hex_digits lookahead_af has_af].
  intros [Hc Hs]%andb_true_iff. destruct (is_af c); [done|].
  by rewrite hex_digit_not_line_terminator, IH.
Qed.

Lemma parseRevision_standard {C} (f : Features C) (r : string) :
  revision f = Some r → is_standard_notation r = true → parseRevision f = Some r.
Proof.
  intros Hrev Hstd. unfold parseRevision. rewrite Hrev, Hstd.
  apply andb_true_iff in Hstd as [Hl _]. by rewrite (lookahead_af_truthy r Hl).
Qed.

(** X8. A revision in standard notation (hexadecimal digits, one of them a
    letter a-f, in either case) is returned as it is. *)
Theorem parseRevision_standard_notation {C} (f : Features C) (r : string) :
  revision f = Some r →
  all_hex_digits r = true →
  has_af r = true →
  parseRevision f = Some r.
Proof.
  intros Hrev Hhex Haf. apply parseRevision_standard; [done|].
  unfold is_standard_notation. by rewrite lookahead_af_hex_digits, Haf, Hhex.
Qed.

Lemma parseRevision_standard_notation_witness :
  (let r := "df0963ec48f01f3d07ffca556e21ff0070cab099" in
   let f := mkFeatures (C := Z) None 1 9 3 None (Some r) in
   revision f = Some r
   ∧ all_hex_digits r = true
   ∧ has_af r = true
   ∧ parseRevision f = Some r).
Proof.
  split; [reflexivity|]. split; [reflexivity|]. split; [reflexivity|].
  apply (parseRevision_standard_notation
           (mkFeatures (C := Z) None 1 9 3 None
                       (Some "df0963ec48f01f3d07ffca556e21ff0070cab099")));
    reflexivity.
Defined.

(** X9. Normalising twice changes nothing when the first result holds a
    letter a-f: [parseRevision] maps such a result to itself. *)
Theorem parseRevision_idempotent {C} (f : Features C) (r : string) :
  parseRevision f = Some r →
  has_af r = true →
  parseRevision (with_revision f (Some r)) = Some r.
Proof.
  unfold parseRevision at 1. intros Hfirst Haf.
  destruct (revision f) as [rev|] eqn:Hrev; [|discriminate].
  destruct (truthy_string rev) eqn:Htruthy; [|discriminate]. simpl in Hfirst.
  destruct (is_standard_notation rev) eqn:Hstd.
  - injection Hfirst as <-. by apply parseRevision_standard.
  - destruct (all_hex_digits (Buffer_toString_utf8 (Buffer_from_hex rev))) eqn:Hhex;
      injection Hfirst as <-.
    + apply parseRevision_standard; [done|].
      unfold is_standard_notation. by rewrite lookahead_af_hex_digits, Haf, Hhex.
    + unfold parseRevision. simpl. by rewrite Htruthy, Hstd, Hhex.
Qed.

Lemma parseRevision_idempotent_witness :
  (let f := mkFeatures (C := Z) None 2 3 0 None (Some "6466303936336563") in
   parseRevision f = Some "df0963ec"
   ∧ has_af "df0963ec" = true
   ∧ parseRevision (with_revision f (Some "df0963ec")) = Some "df0963ec").
Proof.
  split; [reflexivity|]. split; [reflexivity|].
  apply (parseRevision_idempotent
           (mkFeatures (C := Z) None 2 3 0 None (Some "6466303936336563")));
    reflexivity.
Defined.

(** X10. The decoding does not need the letter: for every non-empty
    revision made of hexadecimal digits, digits 0-9 only included,
    [parseRevision] maps the hexadecimal encoding of its bytes back to the
    revision. *)
Theorem parseRevision_decodes_raw_bytes {C} (f : Features C) (r : string) :
  all_hex_digits r = true →
  r ≠ "" →
  revision f = Some (hex_encode r) →
  parseRevision f = Some r.
Proof.
  intros Hhex Hne Hrev. unfold parseRevision. rewrite Hrev.
  assert (truthy_string (hex_encode r) = true) as -> by (by destruct r).
  simpl. rewrite hex_encode_not_standard, decode_hex_encode by done.
  by rewrite Hhex.
Qed.

Lemma parseRevision_decodes_raw_bytes_witness :
  (let f := mkFeatures (C := Z) None 2 3 0 None (Some "3230323031323235") in
   all_hex_digits "20201225" = true
   ∧ "20201225" ≠ ""
   ∧ revision f = Some (hex_encode "20201225")
   ∧ parseRevision f = Some "20201225").
Proof.
  split; [reflexivity|]. split; [discriminate|]. split; [reflexivity|].
  apply (parseRevision_decodes_raw_bytes
           (mkFeatures (C := Z) None 2 3 0 None (Some "3230323031323235"))
           "20201225"); [reflexivity | discriminate | reflexivity].
Defined.

(** X11. A revision that does not start with a hexadecimal digit decodes to
    no byte at all, and the empty text passes the second regular expression:
    [parseRevision] returns the empty string, neither the revision nor
    [null]. *)
Theorem parseRevision_not_hex {C} (f : Features C) (a : ascii) (rest : string) :
  revision f = Some (String a rest) →
  is_hex_digit a = false →
  parseRevision f = Some "".
Proof.
  intros Hrev Ha. unfold parseRevision. rewrite Hrev. cbn [truthy_string negb].
  assert (is_standard_notation (String a rest) = false) as ->.
  { unfold is_standard_notation. cbn [all_hex_digits]. by rewrite Ha, andb_false_r. }
  assert (Buffer_from_hex (String a rest) = []) as ->; [|reflexivity].
  destruct rest as [|b rest]; [reflexivity|].
  cbn [Buffer_from_hex]. by rewrite (not_hex_digit_no_value a Ha).
Qed.

Lemma parseRevision_not_hex_witness :
  (let f := mkFeatures (C := Z) None 2 3 0 None (Some "HEAD") in
   revision f = Some (String "H" "EAD")
   ∧ is_hex_digit "H" = false
   ∧ parseRevision f = Some "").
Proof.
  split; [reflexivity|]. split; [reflexivity|].
  apply (parseRevision_not_hex (mkFeatures (C := Z) None 2 3 0 None (Some "HEAD"))
                               "H"%char "EAD"); reflexivity.
Defined.

Lemma Buffer_from_hex_length (s : string) :
  (2 * length (Buffer_from_hex s) ≤ String.length s)%nat
  ∧ ∀ a, (2 * length (Buffer_from_hex (String a s)) ≤ S (String.length s))%nat.
Proof.
  induction s as [|b s [IH1 IH2]].
  - split; [simpl; lia|]. intros a. simpl. lia.
  - split; [apply IH2|]. intros a. cbn [Buffer_from_hex].
    destruct (hex_value a), (hex_value b); simpl; lia.
Qed.

Lemma Buffer_toString_utf8_length (bytes : list N) :
  String.length (Buffer_toString_utf8 bytes) = length bytes.
Proof.
  unfold Buffer_toString_utf8. induction bytes as [|b bytes IH]; [done|].
  simpl. by rewrite IH.
Qed.

(** X12. The result is [null] exactly when the revision is absent or
    empty.  Otherwise it is the revision itself, or a text of hexadecimal
    digits at most half as long as the revision: no other text is ever
    returned. *)
Theorem parseRevision_result {C} (f : Features C) :
  (parseRevision f = None ↔ revision f = None ∨ revision f = Some "")
  ∧ ∀ r, parseRevision f = Some r →
         revision f = Some r
         ∨ (all_hex_digits r = true
            ∧ ∃ rev, revision f = Some rev
                     ∧ (2 * String.length r ≤ String.length rev)%nat).
Proof.
  unfold parseRevision. destruct (revision f) as [rev|]; [|split; [tauto|done]].
  destruct rev as [|a rev]; [simpl; split; [tauto|done]|].
  cbn [truthy_string negb]. cbv zeta.
  destruct (is_standard_notation (String a rev)).
  { split; [split; [done|intros [?|?]; done]|]. intros r [= <-]. by left. }
  destruct (all_hex_digits (Buffer_toString_utf8 (Buffer_from_hex (String a rev))))
    eqn:Hhex.
  - split; [split; [done|intros [?|?]; done]|]. intros r [= <-]. right.
    split; [done|]. eexists. split; [done|].
    rewrite Buffer_toString_utf8_length. apply Buffer_from_hex_length.
  - split; [split; [done|intros [?|?]; done]|]. intros r [= <-]. by left.
Qed.

(** ** [gatherWitnessPaths] *)

Lemma dedup_first_snoc {A} `{EqDecision A} (l : list A) (x : A) :
  dedup_first (l ++ [x])
  = if decide (x ∈ l) then dedup_first l else dedup_first l ++ [x].
Proof.
  induction l as [|y l IH]; [done|]. cbn [app dedup_first]. rewrite IH.
  destruct (decide (x = y)) as [->|Hxy].
  - rewrite (decide_True (P := y ∈ y :: l)) by left.
    destruct (decide (y ∈ l)); [done|].
    rewrite filter_app, filter_cons_False, app_nil_r by (by intros ?). done.
  - destruct (decide (x ∈ l)) as [Hin|Hin].
    + rewrite decide_True by (by right). done.
    + rewrite decide_False by (by apply not_elem_of_cons).
      rewrite filter_app, filter_cons_True by done. done.
Qed.

Lemma dedup_first_redundant {A} `{EqDecision A} (l1 l2 l3 : list A) :
  (∀ x, x ∈ l2 → x ∈ l1) →
  dedup_first (l1 ++ l2 ++ l3) = dedup_first (l1 ++ l3).
Proof.
  revert l1. induction l2 as [|y l2 IH]; intros l1 Hsub; [done|].
  cbn [app]. rewrite dedup_first_repeated by (apply Hsub; left).
  apply IH. intros x Hx. apply Hsub. by right.
Qed.

(** X13. Adding a withdrawal at the end: when its path, present or not, is
    among the witnesses already, the result does not change; otherwise the
    path goes to the end of the result. *)
Theorem gatherWitnessPaths_add_withdrawal (inputs : list InputWithPath)
    (certificates : list CertificateWithPoolOwnersAndRelays)
    (withdrawals : list CardanoTxWithdrawal) (w : CardanoTxWithdrawal) :
  gatherWitnessPaths inputs certificates (withdrawals ++ [w])
  = if decide (withdrawal_path w ∈ gatherWitnessPaths inputs certificates withdrawals)
    then gatherWitnessPaths inputs certificates withdrawals
    else gatherWitnessPaths inputs certificates withdrawals ++ [withdrawal_path w].
Proof.
  rewrite !gatherWitnessPaths_dedup.
  assert (inserted_paths inputs certificates (withdrawals ++ [w])
          = inserted_paths inputs certificates withdrawals ++ [withdrawal_path w]) as ->.
  { unfold inserted_paths. rewrite map_app. cbn [map]. by rewrite <- !app_assoc. }
  rewrite dedup_first_snoc. apply decide_ext. by rewrite dedup_first_elem_of.
Qed.

Example example_add_withdrawal :
  gatherWitnessPaths [mkInput (Some [0; 1])] [] ([mkWithdrawal (Some [2])]
                                                 ++ [mkWithdrawal (Some [0; 1])])
  = [Some [0; 1]; Some [2]]
  ∧ gatherWitnessPaths [mkInput (Some [0; 1])] [] ([mkWithdrawal (Some [2])]
                                                   ++ [mkWithdrawal (Some [3])])
    = [Some [0; 1]; Some [2]; Some [3]].
Proof. split; reflexivity. Qed.

Lemma input_paths_app (inputs inputs' : list InputWithPath) :
  input_paths (inputs ++ inputs') = input_paths inputs ++ input_paths inputs'.
Proof. unfold input_paths. by rewrite map_app, filter_app. Qed.

(** X14. Further inputs whose paths are all among the paths of the earlier
    inputs (or absent) do not change the result. *)
Theorem gatherWitnessPaths_repeated_inputs (inputs more : list InputWithPath)
    (certificates : list CertificateWithPoolOwnersAndRelays)
    (withdrawals : list CardanoTxWithdrawal) :
  (∀ input path, input ∈ more → input_path input = Some path →
                 ∃ earlier, earlier ∈ inputs ∧ input_path earlier = Some path) →
  gatherWitnessPaths (inputs ++ more) certificates withdrawals
  = gatherWitnessPaths inputs certificates withdrawals.
Proof.
  intros Hmore. rewrite !gatherWitnessPaths_dedup. unfold inserted_paths.
  rewrite input_paths_app, <- app_assoc. apply dedup_first_redundant.
  intros p [[path ->] Hp]%list_elem_of_filter.
  apply list_elem_of_fmap in Hp as (input & Hpath & Hin).
  destruct (Hmore input path Hin (eq_sym Hpath)) as (earlier & He & Hpe).
  apply list_elem_of_filter. split; [eauto|].
  apply list_elem_of_fmap. exists earlier. eauto.
Qed.

Lemma gatherWitnessPaths_repeated_inputs_witness :
  (let inputs := [mkInput (Some [0; 1; 2]); mkInput (Some [0; 1; 3])] in
   let more := [mkInput None; mkInput (Some [0; 1; 2])] in
   let withdrawals := [mkWithdrawal (Some [0; 2; 0])] in
   (∀ input path, input ∈ more → input_path input = Some path →
                  ∃ earlier, earlier ∈ inputs ∧ input_path earlier = Some path)
   ∧ gatherWitnessPaths (inputs ++ more) [] withdrawals
     = gatherWitnessPaths inputs [] withdrawals).
Proof.
  assert (∀ input path,
            input ∈ [mkInput None; mkInput (Some [0; 1; 2])] →
            input_path input = Some path →
            ∃ earlier, earlier ∈ [mkInput (Some [0; 1; 2]); mkInput (Some [0; 1; 3])]
                       ∧ input_path earlier = Some path) as Hmore.
  { intros input path [-> | Hin]%elem_of_cons Hpath; [discriminate Hpath|].
    apply list_elem_of_singleton in Hin as ->.
    exists (mkInput (Some [0; 1; 2])). split; [left|exact Hpath]. }
  split; [exact Hmore|].
  exact (gatherWitnessPaths_repeated_inputs _ _ [] _ Hmore).
Defined.

(** X15. Two different paths never get the same key in the map
    [witnessPaths]: [JSON.stringify] tells any two arrays of integers apart,
    and an array from an absent path. *)
Theorem witnessPaths_keys_distinct (path1 path2 : option Path) :
  path1 ≠ path2 → JSON_stringify path1 ≠ JSON_stringify path2.
Proof. intros Hne Hkey. by apply Hne, JSON_stringify_inj. Qed.

Lemma witnessPaths_keys_distinct_witness :
  (@Some Path [1; 23] ≠ Some [12; 3])
  ∧ JSON_stringify (Some [1; 23]) = Some "[1,23]"
  ∧ JSON_stringify (Some [12; 3]) = Some "[12,3]"
  ∧ JSON_stringify (Some [1; 23]) ≠ JSON_stringify (Some [12; 3]).
Proof.
  assert (@Some Path [1; 23] ≠ Some [12; 3]) as Hne by discriminate.
  split; [exact Hne|]. split; [reflexivity|]. split; [reflexivity|].
  exact (witnessPaths_keys_distinct _ _ Hne).
Defined.

(** X16. A certificate without a declared path to insert (its type is
    neither stake delegation nor stake deregistration, or it has no path)
    and without a pool owner that has a staking-key path does not change the
    result, wherever it stands among the certificates. *)
Theorem gatherWitnessPaths_certificate_without_paths (inputs : list InputWithPath)
    (before after : list CertificateWithPoolOwnersAndRelays)
    (c : CertificateWithPoolOwnersAndRelays)
    (withdrawals : list CardanoTxWithdrawal) :
  is_stake_certificate (certificate_type (certificate c)) = false
  ∨ certificate_path (certificate c) = None →
  (∀ owner, owner ∈ poolOwners c → staking_key_path owner = None) →
  gatherWitnessPaths inputs (before ++ c :: after) withdrawals
  = gatherWitnessPaths inputs (before ++ after) withdrawals.
Proof.
  intros Hdeclared Howners. rewrite !gatherWitnessPaths_dedup. unfold inserted_paths.
  assert (declared_path c = []) as Hd.
  { unfold declared_path. destruct Hdeclared as [-> | ->]; [|done].
    by destruct (certificate_path (certificate c)). }
  assert (pool_owner_paths c = []) as Hp.
  { unfold pool_owner_paths. clear -Howners.
    induction (poolOwners c) as [|owner owners IH]; [done|].
    cbn [map]. rewrite (Howners owner) by left.
    rewrite filter_cons_False by (by intros [? ?]).
    apply IH. intros o Ho. apply Howners. by right. }
  rewrite !map_app, !concat_app. cbn [map concat]. by rewrite Hd, Hp.
Qed.

Lemma gatherWitnessPaths_certificate_without_paths_witness :
  (let registration :=
     mkCertificateWithPoolOwners (mkCertificate (OTHER_CERTIFICATE 0) (Some [1852; 1815; 0; 2; 0]))
                                 [mkPoolOwner None] in
   let delegation :=
     mkCertificateWithPoolOwners (mkCertificate STAKE_DELEGATION (Some [1852; 1815; 1; 2; 0]))
                                 [] in
   (is_stake_certificate (certificate_type (certificate registration)) = false
    ∨ certificate_path (certificate registration) = None)
   ∧ (∀ owner, owner ∈ poolOwners registration → staking_key_path owner = None)
   ∧ gatherWitnessPaths [] ([delegation] ++ registration :: []) []
     = gatherWitnessPaths [] ([delegation] ++ []) []).
Proof.
  assert (∀ owner, owner ∈ [mkPoolOwner None] → staking_key_path owner = None) as Howners.
  { by intros owner ->%list_elem_of_singleton. }
  split; [left; reflexivity|]. split; [exact Howners|].
  exact (gatherWitnessPaths_certificate_without_paths
           [] _ []
           (mkCertificateWithPoolOwners
              (mkCertificate (OTHER_CERTIFICATE 0) (Some [1852; 1815; 0; 2; 0]))
              [mkPoolOwner None])
           [] (or_introl eq_refl) Howners).
Defined.

(** X17. When the inserted paths are pairwise different, the result is
    the insertion sequence itself: nothing is dropped or moved. *)
Theorem gatherWitnessPaths_distinct_paths (inputs : list InputWithPath)
    (certificates : list CertificateWithPoolOwnersAndRelays)
    (withdrawals : list CardanoTxWithdrawal) :
  NoDup (inserted_paths inputs certificates withdrawals) →
  gatherWitnessPaths inputs certificates withdrawals
  = inserted_paths inputs certificates withdrawals.
Proof.
  intros Hnodup. rewrite gatherWitnessPaths_dedup. by apply dedup_first_id.
Qed.

Lemma gatherWitnessPaths_distinct_paths_witness :
  (let inputs := [mkInput (Some [0; 1; 2])] in
   let certificates :=
     [mkCertificateWithPoolOwners (mkCertificate STAKE_DEREGISTRATION (Some [0; 2; 0])) []] in
   let withdrawals := [mkWithdrawal (Some [0; 2; 1])] in
   NoDup (inserted_paths inputs certificates withdrawals)
   ∧ gatherWitnessPaths inputs certificates withdrawals
     = [Some [0; 1; 2]; Some [0; 2; 0]; Some [0; 2; 1]]).
Proof.
  assert (NoDup (inserted_paths
                   [mkInput (Some [0; 1; 2])]
                   [mkCertificateWithPoolOwners
                      (mkCertificate STAKE_DEREGISTRATION (Some [0; 2; 0])) []]
                   [mkWithdrawal (Some [0; 2; 1])])) as Hnodup.
  { apply (bool_decide_unpack _). reflexivity. }
  split; [exact Hnodup|].
  rewrite (gatherWitnessPaths_distinct_paths _ _ _ Hnodup). reflexivity.
Defined.
